(** * The Indian Express topic explorer: search filter, preprocessing and
      term dictionary of [app.py], embedded in Rocq.

    The script is a Streamlit page: a pandas data frame of articles is
    filtered by [search_articles], the matched contents are tokenised by
    [preprocess_text], and [build_lda_model] hands the token sequences to
    gensim ([corpora.Dictionary], [doc2bow], [LdaModel]).

    Conventions of the embedding.
    - A Python [str] is a [string]; each character is read as the code
      point of the same number (U+0000 to U+00FF).  [lower], [isspace] and
      [isalpha] follow Python's [str] methods on that range.
    - A data frame is the list of its rows, in index order; a column is
      the list of the rows' values.
    - A raised exception is an explicit [Raises] outcome.
    - Library code that has no source in the repository is either written
      out from its documented behaviour (the regular-expression fragment,
      gensim's dictionary) or taken as a parameter of a Section (NLTK's
      tokenizer and stopword list, the LDA optimiser). *)

From Stdlib Require Import Ascii.
From stdpp Require Import base tactics option list sorting gmap strings.

(** ** Outcomes: a value or a raised exception *)

Inductive exn : Type :=
| re_error      (* re.error: the pattern is not a regular expression *)
| ValueError.   (* gensim: cannot compute LDA over an empty collection *)

Inductive outcome (A : Type) : Type :=
| Returns (a : A)
| Raises (e : exn).
Arguments Returns {A} a.
Arguments Raises {A} e.

Global Instance outcome_ret : MRet outcome := λ A a, Returns a.

Global Instance outcome_bind : MBind outcome := λ A B f m,
  match m with
  | Returns a => f a
  | Raises e => Raises e
  end.

(** ** Python's [str] methods on the code points below 256 *)

Module Str.

Definition code (c : ascii) : nat := nat_of_ascii c.

(** [str.isspace] on one character: TAB..CR, FS..US, space, NEL, NBSP. *)
Definition isspace (c : ascii) : bool :=
  let n := code c in
  ((9 <=? n) && (n <=? 13)) || ((28 <=? n) && (n <=? 32))
  || (n =? 133) || (n =? 160).

(** The cased letters with a lowercase partner 32 places up: A..Z and
    the Latin-1 capitals but the multiplication sign. *)
Definition isupper (c : ascii) : bool :=
  let n := code c in
  ((65 <=? n) && (n <=? 90))
  || ((192 <=? n) && (n <=? 222) && negb (n =? 215)).

(** The characters of a letter category: the ASCII letters, the two
    ordinal indicators, the micro sign and the Latin-1 letters. *)
Definition isalpha_char (c : ascii) : bool :=
  let n := code c in
  ((65 <=? n) && (n <=? 90)) || ((97 <=? n) && (n <=? 122))
  || (n =? 170) || (n =? 181) || (n =? 186)
  || ((192 <=? n) && (n <=? 255) && negb (n =? 215) && negb (n =? 247)).

Definition lower_char (c : ascii) : ascii :=
  if isupper c then ascii_of_nat (code c + 32) else c.

(** [s.lower()] *)
Fixpoint lower (s : string) : string :=
  match s with
  | EmptyString => EmptyString
  | String c s' => String (lower_char c) (lower s')
  end.

Fixpoint lstrip (s : string) : string :=
  match s with
  | EmptyString => EmptyString
  | String c s' => if isspace c then lstrip s' else s
  end.

Fixpoint rstrip (s : string) : string :=
  match s with
  | EmptyString => EmptyString
  | String c s' =>
      match rstrip s' with
      | EmptyString => if isspace c then EmptyString else String c EmptyString
      | r => String c r
      end
  end.

(** [s.strip()] with no argument: surrounding whitespace removed. *)
Definition strip (s : string) : string := rstrip (lstrip s).

(** Truth value of a string: non-empty. *)
Definition truthy (s : string) : bool :=
  match s with EmptyString => false | String _ _ => true end.

(** [s.isalpha()]: at least one character, and all of them letters. *)
Fixpoint all_alpha (s : string) : bool :=
  match s with
  | EmptyString => true
  | String c s' => isalpha_char c && all_alpha s'
  end.

Definition isalpha (s : string) : bool := truthy s && all_alpha s.

(** [needle in hay]: plain substring containment. *)
Fixpoint startswith (hay needle : string) : bool :=
  match needle, hay with
  | EmptyString, _ => true
  | String _ _, EmptyString => false
  | String a n', String b h' => Ascii.eqb a b && startswith h' n'
  end.

Fixpoint contains (hay needle : string) : bool :=
  startswith hay needle
  || match hay with
     | EmptyString => false
     | String _ h' => contains h' needle
     end.

End Str.

(** ** Regular expressions: the fragment of Python's [re] modelled here

    pandas' [Series.str.contains(pat)] has [regex=True] by default: it
    calls [re.compile(pat)] once and keeps the rows [x] on which
    [regex.search(x)] finds a match.  The fragment below covers patterns
    built from ordinary characters, the dot, grouping parentheses,
    alternation and the greedy quantifiers [*], [+], [?].  A pattern that
    uses anything else (a backslash, a bracket or brace, an anchor, a
    [(?...)] extension, a lazy or possessive quantifier) is outside the
    fragment, and [compile] hands it to the engine [rest] it is given. *)

Module Re.

Inductive regex : Type :=
| Fail                       (* matches nothing; arises in derivatives *)
| Empty                      (* the empty sequence *)
| Lit (c : ascii)            (* an ordinary character *)
| AnyChar                    (* [.]: any character but the newline *)
| Cat (r1 r2 : regex)
| Or (r1 r2 : regex)
| Star (r : regex)
| Plus (r : regex)
| Opt (r : regex)
| Group (r : regex).

Definition newline : ascii := ascii_of_nat 10.

(** *** Parsing, after [sre_parse]

    The parser keeps the branch being read as the list of its items, last
    item first, together with the finished branches of the same group;
    [stack] holds the enclosing groups.  [None] is [re.error]. *)

Record frame : Type := Frame {
  branches : list regex;     (* finished alternatives, last first *)
  items : list regex         (* items of the current branch, last first *)
}.

Definition empty_frame : frame := Frame [] [].

Definition push (r : regex) (f : frame) : frame :=
  Frame (branches f) (r :: items f).

Definition sequence (rs : list regex) : regex := foldr Cat Empty rs.

Definition close_branch (f : frame) : regex := sequence (reverse (items f)).

Fixpoint alternation (first : regex) (others : list regex) : regex :=
  match others with
  | [] => first
  | r :: others' => Or first (alternation r others')
  end.

Definition close_frame (f : frame) : regex :=
  match reverse (close_branch f :: branches f) with
  | [] => Empty
  | r :: rs => alternation r rs
  end.

Definition is_repeat (r : regex) : bool :=
  match r with
  | Star _ | Plus _ | Opt _ => true
  | _ => false
  end.

Definition quantifier (c : ascii) : option (regex → regex) :=
  if Ascii.eqb c "*" then Some Star
  else if Ascii.eqb c "+" then Some Plus
  else if Ascii.eqb c "?" then Some Opt
  else None.

Fixpoint parse (p : list ascii) (cur : frame) (stack : list frame)
  : option regex :=
  match p with
  | [] =>
      match stack with
      | [] => Some (close_frame cur)
      | _ :: _ => None          (* missing ), unterminated subpattern *)
      end
  | c :: p' =>
      if Ascii.eqb c "(" then parse p' empty_frame (cur :: stack)
      else if Ascii.eqb c ")" then
        match stack with
        | [] => None            (* unbalanced parenthesis *)
        | outer :: stack' =>
            parse p' (push (Group (close_frame cur)) outer) stack'
        end
      else if Ascii.eqb c "|" then
        parse p' (Frame (close_branch cur :: branches cur) []) stack
      else
        match quantifier c with
        | Some q =>
            match items cur with
            | [] => None        (* nothing to repeat *)
            | r :: rs =>
                if is_repeat r then None      (* multiple repeat *)
                else parse p' (Frame (branches cur) (q r :: rs)) stack
            end
        | None =>
            if Ascii.eqb c "." then parse p' (push AnyChar cur) stack
            else parse p' (push (Lit c) cur) stack
        end
  end.

(** The characters with a special meaning that the fragment leaves out. *)
Definition beyond_char (c : ascii) : bool :=
  Ascii.eqb c "\" || Ascii.eqb c "[" || Ascii.eqb c "{"
  || Ascii.eqb c "^" || Ascii.eqb c "$".

Definition is_quantifier (c : ascii) : bool :=
  Ascii.eqb c "*" || Ascii.eqb c "+" || Ascii.eqb c "?".

Fixpoint in_fragment (p : list ascii) : bool :=
  match p with
  | [] => true
  | c :: p' =>
      negb (beyond_char c)
      && match p' with
         | [] => true
         | d :: _ =>
             negb (Ascii.eqb c "(" && Ascii.eqb d "?")
             && negb (is_quantifier c && (Ascii.eqb d "?" || Ascii.eqb d "+"))
         end
      && in_fragment p'
  end.

(** *** Matching, by derivatives *)

Fixpoint nullable (r : regex) : bool :=
  match r with
  | Fail | Lit _ | AnyChar => false
  | Empty | Star _ | Opt _ => true
  | Cat r1 r2 => nullable r1 && nullable r2
  | Or r1 r2 => nullable r1 || nullable r2
  | Plus r1 | Group r1 => nullable r1
  end.

Fixpoint deriv (c : ascii) (r : regex) : regex :=
  match r with
  | Fail | Empty => Fail
  | Lit d => if Ascii.eqb c d then Empty else Fail
  | AnyChar => if Ascii.eqb c newline then Fail else Empty
  | Cat r1 r2 =>
      if nullable r1 then Or (Cat (deriv c r1) r2) (deriv c r2)
      else Cat (deriv c r1) r2
  | Or r1 r2 => Or (deriv c r1) (deriv c r2)
  | Star r1 | Plus r1 => Cat (deriv c r1) (Star r1)
  | Opt r1 | Group r1 => deriv c r1
  end.

(** [regex.match]: some prefix of [s] is matched by [r]. *)
Fixpoint match_here (r : regex) (s : string) : bool :=
  nullable r
  || match s with
     | EmptyString => false
     | String c s' => match_here (deriv c r) s'
     end.

(** [regex.search(s) is not None]: a match starts somewhere in [s]. *)
Fixpoint search (r : regex) (s : string) : bool :=
  match_here r s
  || match s with
     | EmptyString => false
     | String _ s' => search r s'
     end.

(** A regular-expression engine: [None] when [re.compile] raises
    [re.error], otherwise the test [regex.search(x) is not None]. *)
Definition engine : Type := string → option (string → bool).

Definition compile (rest : engine) : engine := λ pat,
  let p := String.list_ascii_of_string pat in
  if in_fragment p then search <$> parse p empty_frame []
  else rest pat.

(** An engine that knows nothing outside the fragment; used only to run
    [compile] on patterns inside it. *)
Definition no_rest : engine := λ _, None.

End Re.

(** ** The article table *)

Record Article : Type := mkArticle {
  headlines : string;
  content : string;
  category : string;
  url : string
}.

Global Instance Article_eq_dec : EqDecision Article.
Proof. solve_decision. Defined.

(** The data frame as the list of its rows. *)
Abbreviation DataFrame := (list Article).

(** ** The pandas operations [search_articles] uses *)

Module Pd.

(** [series == value], element by element. *)
Definition eq (column : list string) (value : string) : list bool :=
  (λ x, String.eqb x value) <$> column.

(** [series.str.lower()] *)
Definition str_lower (column : list string) : list string :=
  Str.lower <$> column.

(** [series.str.contains(pat)] with the default [regex=True]: the pattern
    is compiled first, whatever the column holds. *)
Definition str_contains (re_compile : Re.engine)
    (column : list string) (pat : string) : outcome (list bool) :=
  match re_compile pat with
  | None => Raises re_error
  | Some found => Returns (found <$> column)
  end.

(** [mask1 | mask2] *)
Definition or (mask1 mask2 : list bool) : list bool :=
  zip_with orb mask1 mask2.

(** [df[mask]]: the rows whose mask entry is [True], in order. *)
Fixpoint getitem (df : DataFrame) (mask : list bool) : DataFrame :=
  match df, mask with
  | row :: df', keep :: mask' =>
      if keep then row :: getitem df' mask' else getitem df' mask'
  | _, _ => []
  end.

(** [series.unique()]: the distinct values in order of first appearance. *)
Fixpoint unique (column : list string) : list string :=
  match column with
  | [] => []
  | x :: column' => x :: filter (λ y, y ≠ x) (unique column')
  end.

End Pd.

(** ** [search_articles] (app.py, lines 35-42) *)

Section Search.

Context (re_compile : Re.engine).

Definition search_articles (query category_filter : string) (df : DataFrame)
  : outcome DataFrame :=
  let query := Str.lower (Str.strip query) in
  let df :=
    if negb (String.eqb category_filter "All")
    then Pd.getitem df (Pd.eq (category <$> df) category_filter)
    else df in
  if Str.truthy query then
    in_headlines ← Pd.str_contains re_compile
                     (Pd.str_lower (headlines <$> df)) query;
    in_content ← Pd.str_contains re_compile
                   (Pd.str_lower (content <$> df)) query;
    Returns (Pd.getitem df (Pd.or in_headlines in_content))
  else Returns df.

End Search.

(** The row tests [search_articles] applies, read off its two steps. *)
Definition category_keeps (category_filter : string) (a : Article) : Prop :=
  category_filter = "All" ∨ category a = category_filter.

Definition text_keeps (found : string → bool) (a : Article) : Prop :=
  found (Str.lower (headlines a)) = true ∨ found (Str.lower (content a)) = true.

Global Instance category_keeps_dec c a : Decision (category_keeps c a).
Proof. unfold category_keeps. apply _. Defined.
Global Instance text_keeps_dec found a : Decision (text_keeps found a).
Proof. unfold text_keeps. apply _. Defined.

(** A query without any character that is special in a pattern
    ([SPECIAL_CHARS] of [sre_parse]). *)
Definition special (c : ascii) : bool :=
  Ascii.eqb c "." || Ascii.eqb c "\" || Ascii.eqb c "[" || Ascii.eqb c "{"
  || Ascii.eqb c "(" || Ascii.eqb c ")" || Ascii.eqb c "*" || Ascii.eqb c "+"
  || Ascii.eqb c "?" || Ascii.eqb c "^" || Ascii.eqb c "$" || Ascii.eqb c "|".

Fixpoint plain (q : string) : bool :=
  match q with
  | EmptyString => true
  | String c q' => negb (special c) && plain q'
  end.

(** The filter as the specification words it: the category is compared
    with the filter unless the filter is the sentinel, and the trimmed,
    lowercased query must occur in the lowercased headline or content as
    a plain substring. *)
Definition spec_category_ok (category_filter : string) (a : Article) : bool :=
  String.eqb category_filter "All" || String.eqb (category a) category_filter.

Definition spec_query_ok (query : string) (a : Article) : bool :=
  let q := Str.lower (Str.strip query) in
  negb (Str.truthy q)
  || Str.contains (Str.lower (headlines a)) q
  || Str.contains (Str.lower (content a)) q.

Definition spec_search (query category_filter : string) (df : DataFrame)
  : DataFrame :=
  List.filter (λ a, spec_category_ok category_filter a && spec_query_ok query a)
    df.

(** The category choices of the select box (app.py, line 151), without
    the leading sentinel. *)
Definition categories (df : DataFrame) : list string :=
  merge_sort String.le (Pd.unique (category <$> df)).

(** The options of the category select box (app.py, lines 151-152): the
    sentinel first, which is also the preselected option ([index=0]). *)
Definition category_options (df : DataFrame) : list string :=
  "All" :: categories df.

(** A row with its headline and content in lower case. *)
Definition lower_row (a : Article) : Article :=
  mkArticle (Str.lower (headlines a)) (Str.lower (content a))
    (category a) (url a).

(** A two-row table with a category that is spelled like the sentinel. *)
Definition all_row : Article :=
  mkArticle "Budget day" "All eyes on the budget" "All" "u/1".
Definition sports_row : Article :=
  mkArticle "Cup final" "A late goal" "Sports" "u/2".
Definition example_table : DataFrame := [all_row; sports_row].

(** A row whose headline holds "bus". *)
Definition bus_row : Article :=
  mkArticle "Bus strike enters day two" "Commuters walk to work" "Cities" "u/3".

(** A row whose content holds a number and a stopword only. *)
Definition scores_row : Article :=
  mkArticle "Scores" "2024 the 3 1" "Sports" "u/4".

(** ** [preprocess_text] (app.py, lines 17-21)

    NLTK's [word_tokenize] and its English stopword list are data and code
    of the NLTK distribution; they are parameters here. *)

Section Preprocess.

Context (word_tokenize : string → list string) (stop_words : list string).

Definition preprocess_text (text : string) : list string :=
  let tokens := word_tokenize (Str.lower text) in
  List.filter (λ word, Str.isalpha word && bool_decide (word ∉ stop_words))
    tokens.

End Preprocess.

(** ** gensim's [corpora.Dictionary] and [doc2bow]

    [Dictionary(docs)] starts from an empty mapping and calls
    [add_documents(docs)], which feeds every document to
    [doc2bow(document, allow_update=True)].  [doc2bow] counts the tokens of
    the document, gives the tokens the dictionary has not seen yet the next
    free ids in *sorted* order, and returns the (id, count) pairs in
    ascending id order. *)

Module Gensim.

Record Dictionary : Type := mkDictionary {
  token2id : gmap string nat;
  cfs : gmap nat nat;          (* collection frequencies *)
  dfs : gmap nat nat;          (* document frequencies *)
  num_docs : nat;
  num_pos : nat;
  num_nnz : nat
}.

Definition empty : Dictionary := mkDictionary ∅ ∅ ∅ 0 0 0.

(** [len(dictionary)] *)
Definition len (d : Dictionary) : N := N.of_nat (size (token2id d)).

(** [counter[w] += 1] on a [defaultdict(int)]; the keys keep the order in
    which they were first inserted. *)
Fixpoint incr (w : string) (counter : list (string * nat))
  : list (string * nat) :=
  match counter with
  | [] => [(w, 1)]
  | (k, n) :: counter' =>
      if String.eqb k w then (k, S n) :: counter'
      else (k, n) :: incr w counter'
  end.

Definition count_tokens (document : list string) : list (string * nat) :=
  foldl (λ counter w, incr w counter) [] document.

(** Order of [sorted] on the items of a dictionary: the keys are distinct,
    so the pairs are ordered by their keys. *)
Definition by_token (x y : string * nat) : Prop := String.le x.1 y.1.
Definition by_id (x y : nat * nat) : Prop := x.1 ≤ y.1.

Global Instance by_token_dec : RelDecision by_token.
Proof. intros x y. unfold by_token. apply _. Defined.
Global Instance by_id_dec : RelDecision by_id.
Proof. intros x y. unfold by_id. apply _. Defined.

Global Instance by_token_total : Total by_token.
Proof. intros x y. apply (total String.le). Qed.
Global Instance by_id_total : Total by_id.
Proof. intros x y. apply (total le). Qed.

(** [token2id[w] = len(token2id)] *)
Definition assign (m : gmap string nat) (w : string) : gmap string nat :=
  <[w := size m]> m.

(** [frequency[id] = frequency.get(id, 0) + n] *)
Definition bump (n : nat) (freqs : gmap nat nat) (id : nat) : gmap nat nat :=
  <[id := default 0 (freqs !! id) + n]> freqs.

Definition doc2bow (d : Dictionary) (document : list string)
    (allow_update : bool) : list (nat * nat) * Dictionary :=
  let counter := count_tokens document in
  let missing :=
    merge_sort by_token (filter (λ x, token2id d !! x.1 = None) counter) in
  let token2id' :=
    if allow_update then foldl assign (token2id d) (missing.*1)
    else token2id d in
  (* {token2id[w]: freq for w, freq in counter.items() if w in token2id} *)
  let result : gmap nat nat :=
    foldl (λ r x, match token2id' !! x.1 with
                  | Some id => <[id := x.2]> r
                  | None => r
                  end) ∅ counter in
  let bow := merge_sort by_id (map_to_list result) in
  let d' :=
    if allow_update then
      mkDictionary token2id'
        (foldl (λ f x, bump x.2 f x.1) (cfs d) bow)
        (foldl (λ f x, bump 1 f x.1) (dfs d) bow)
        (S (num_docs d))
        (num_pos d + sum_list (counter.*2))
        (num_nnz d + length bow)
    else d in
  (bow, d').

(** [add_documents(documents, prune_at=2000000)].  Every 10000 documents
    gensim checks the size of the vocabulary and, above [prune_at], drops
    the rarest tokens with [filter_extremes]; that routine is a parameter. *)
Definition prune_at : N := 2000000.

Section AddDocuments.

Context (filter_extremes : Dictionary → Dictionary).

Fixpoint add_documents_from (docno : N) (documents : list (list string))
    (d : Dictionary) : Dictionary :=
  match documents with
  | [] => d
  | document :: documents' =>
      let d1 :=
        if (docno `mod` 10000 =? 0)%N && (prune_at <? len d)%N
        then filter_extremes d else d in
      add_documents_from (docno + 1)%N documents'
        (doc2bow d1 document true).2
  end.

Definition new_Dictionary (documents : list (list string)) : Dictionary :=
  add_documents_from 0%N documents empty.

End AddDocuments.


End Gensim.




(** The id order gensim produces: documents from left to right, and the
    new tokens of one document in ascending order. *)
Definition new_tokens (seen : list string) (doc : list string) : list string :=
  merge_sort String.le (remove_dups (filter (λ w, w ∉ seen) doc)).

Fixpoint batch_order_from (seen : list string) (docs : list (list string))
  : list string :=
  match docs with
  | [] => seen
  | doc :: docs' => batch_order_from (seen ++ new_tokens seen doc) docs'
  end.

Definition batch_order (docs : list (list string)) : list string :=
  batch_order_from [] docs.

(** The distinct tokens of a batch. *)
Definition vocabulary (docs : list (list string)) : gset string :=
  list_to_set (concat docs).

(** The tokens a counter stands for, each as often as it was counted. *)
Definition expand (counter : list (string * nat)) : list string :=
  counter ≫= λ x, replicate x.2 x.1.

(** [numbered m l]: the mapping [m] gives the tokens of [l], which are
    distinct, their positions in [l] as ids. *)
Definition numbered (m : gmap string nat) (l : list string) : Prop :=
  size m = length l
  ∧ NoDup l
  ∧ ∀ w i, m !! w = Some i ↔ l !! i = Some w.

(** The (id, count) pair of a counted token. *)
Definition id_pair (m : gmap string nat) (x : string * nat) : nat * nat :=
  (default 0 (m !! x.1), x.2).

(** The first document of gensim's own tutorial. *)
Definition tutorial_docs : list (list string) :=
  [["human"; "interface"; "computer"]].

(** ** The search action of [main] (app.py, lines 154-181)

    What the page shows is recorded as a log of events; the call of
    [build_lda_model] is an event of its own, so that the log tells whether
    the builder ran.  The log is kept when an exception ends the run. *)

Inductive event : Type :=
| results_header (n : nat)               (* Search Results (n) *)
| result_item (a : Article)
| info_no_articles                       (* No articles found ... *)
| topics_heading                         (* Topics discovered ... *)
| call_build_lda_model (docs : list (list string)) (num_topics : nat)
| topic_line (number : nat) (topic : string)    (* Topic number: ... *)
| write_no_content.                      (* No content available ... *)

Global Instance event_eq_dec : EqDecision event.
Proof. solve_decision. Defined.

Definition run (A : Type) : Type := list event * outcome A.

Definition emit (e : event) : run unit := ([e], Returns tt).
Definition lift {A} (o : outcome A) : run A := ([], o).

Global Instance run_ret : MRet run := λ A a, ([], Returns a).

Global Instance run_bind : MBind run := λ A B f m,
  match m with
  | (log, Returns a) => let '(log', r) := f a in (log ++ log', r)
  | (log, Raises e) => (log, Raises e)
  end.

Fixpoint for_each {A} (f : A → run unit) (l : list A) : run unit :=
  match l with
  | [] => mret tt
  | x :: l' => f x;; for_each f l'
  end.

Section Main.

Context (re_compile : Re.engine).
Context (word_tokenize : string → list string) (stop_words : list string).
Context (filter_extremes : Gensim.Dictionary → Gensim.Dictionary).

(** The fitted model is opaque: the optimiser starts from the random
    state [rng], and [print_topics] renders the (index, text) pairs. *)
Context {random_state lda_model : Type}.
Context (lda_fit : random_state → list (list (nat * nat)) →
                   Gensim.Dictionary → nat → nat → lda_model).
Context (print_topics : lda_model → nat → list (nat * string)).

(** [LdaModel(corpus=, id2word=, num_topics=, passes=)]: the constructor
    refuses a dictionary without terms before it trains. *)
Definition LdaModel (rng : random_state) (corpus : list (list (nat * nat)))
    (id2word : Gensim.Dictionary) (num_topics passes : nat)
  : outcome lda_model :=
  if (Gensim.len id2word =? 0)%N then Raises ValueError
  else Returns (lda_fit rng corpus id2word num_topics passes).

(** app.py, lines 24-28.  The memoisation of [st.cache_data] is not
    modelled: every call runs the body. *)
Definition build_lda_model (rng : random_state) (docs : list (list string))
    (num_topics : nat) : run (lda_model * Gensim.Dictionary) :=
  emit (call_build_lda_model docs num_topics);;
  let dictionary := Gensim.new_Dictionary filter_extremes docs in
  let corpus := (λ doc, (Gensim.doc2bow dictionary doc false).1) <$> docs in
  lda ← lift (LdaModel rng corpus dictionary num_topics 10);
  mret (lda, dictionary).

(** app.py, lines 30-33 *)
Definition display_topics (lda : lda_model) (num_words : nat) : run unit :=
  for_each (λ '(idx, topic), emit (topic_line (idx + 1) topic))
    (print_topics lda num_words).

(** The body of [if st.button("Search"):]. *)
Definition on_search (rng : random_state) (query category_filter : string)
    (df : DataFrame) : run unit :=
  results ← lift (search_articles re_compile query category_filter df);
  emit (results_header (length results));;
  (if bool_decide (results ≠ [])
   then for_each (λ article, emit (result_item article)) results
   else emit info_no_articles);;
  emit topics_heading;;
  let processed_docs :=
    (λ a, preprocess_text word_tokenize stop_words (content a)) <$> results in
  if bool_decide (processed_docs ≠ []) then
    built ← build_lda_model rng processed_docs 5;
    display_topics built.1 5
  else emit write_no_content.

End Main.

(** * Properties *)

(** ** Boolean indexing is filtering *)

Lemma getitem_fmap (f : Article → bool) (df : DataFrame) :
  Pd.getitem df (f <$> df) = filter (λ a, f a = true) df.
Proof.
  induction df as [|a df IH]; [done|]. cbn [fmap list_fmap Pd.getitem].
  rewrite filter_cons. destruct (f a) eqn:Hf.
  - rewrite decide_True by done. by f_equal.
  - rewrite decide_False by congruence. done.
Qed.

Lemma or_fmap {A} (f g : A → bool) (l : list A) :
  Pd.or (f <$> l) (g <$> l) = (λ a, f a || g a) <$> l.
Proof. unfold Pd.or. induction l as [|a l IH]; [done|]. cbn. by f_equal. Qed.

Lemma getitem_category (c : string) (df : DataFrame) :
  Pd.getitem df (Pd.eq (category <$> df) c)
  = filter (λ a, category a = c) df.
Proof.
  unfold Pd.eq. rewrite <- list_fmap_compose, getitem_fmap.
  apply list_filter_iff. intros a. cbn. apply String.eqb_eq.
Qed.

Lemma getitem_text (found : string → bool) (df : DataFrame) :
  Pd.getitem df
    (Pd.or (found <$> Pd.str_lower (headlines <$> df))
           (found <$> Pd.str_lower (content <$> df)))
  = filter (text_keeps found) df.
Proof.
  unfold Pd.str_lower. rewrite <- !list_fmap_compose, or_fmap, getitem_fmap.
  apply list_filter_iff. intros a. cbn. unfold text_keeps.
  rewrite orb_true_iff. done.
Qed.

Section SearchFacts.

Context (re_compile : Re.engine).

(** [search_articles] as one filter: the pattern is compiled when the
    normalised query is not empty, and the rows that pass both tests are
    kept in order. *)
Lemma search_articles_filter (query c : string) (df : DataFrame) :
  search_articles re_compile query c df
  = let q := Str.lower (Str.strip query) in
    if Str.truthy q then
      match re_compile q with
      | None => Raises re_error
      | Some found =>
          Returns (filter (λ a, category_keeps c a ∧ text_keeps found a) df)
      end
    else Returns (filter (category_keeps c) df).
Proof.
  unfold search_articles. cbn zeta.
  set (q := Str.lower (Str.strip query)).
  assert (Hcat : (if negb (String.eqb c "All")
                  then Pd.getitem df (Pd.eq (category <$> df) c) else df)
                 = filter (category_keeps c) df).
  { destruct (String.eqb_spec c "All") as [->|Hne]; cbn.
    - symmetry. induction df as [|a df IH]; [done|].
      rewrite filter_cons_True by (by left). by f_equal.
    - rewrite getitem_category. apply list_filter_iff.
      intros a. unfold category_keeps. intuition congruence. }
  rewrite Hcat. destruct (Str.truthy q); [|done].
  unfold Pd.str_contains. destruct (re_compile q) as [found|]; [|done].
  cbn. rewrite getitem_text, list_filter_filter.
  f_equal. apply list_filter_iff. intros a. tauto.
Qed.

Lemma search_articles_empty_query (c : string) (df : DataFrame) :
  search_articles re_compile "" c df = Returns (filter (category_keeps c) df).
Proof. by rewrite search_articles_filter. Qed.

Lemma filter_category_keeps (c : string) (df : DataFrame) :
  c ≠ "All" →
  filter (category_keeps c) df = filter (λ a, category a = c) df.
Proof.
  intros Hc. apply list_filter_iff. intros a. unfold category_keeps.
  intuition congruence.
Qed.

(** C7. Filtering is idempotent: running [search_articles] with the same
    query and category on its own result gives that result again (and an
    invalid pattern raises both times). *)
Theorem search_articles_idempotent (query c : string) (df : DataFrame) :
  (search_articles re_compile query c df
     ≫= search_articles re_compile query c)
  = search_articles re_compile query c df
  ∧ ∀ rows, search_articles re_compile query c df = Returns rows →
            search_articles re_compile query c rows = Returns rows.
Proof.
  assert (Hret : ∀ rows, search_articles re_compile query c df = Returns rows →
                         search_articles re_compile query c rows = Returns rows).
  { intros rows. rewrite !search_articles_filter. cbn zeta.
    destruct (Str.truthy _).
    - destruct (re_compile _) as [found|]; [|done].
      intros [= <-]. f_equal. by apply list_filter_filter_l.
    - intros [= <-]. f_equal. by apply list_filter_filter_l. }
  split; [|done].
  destruct (search_articles re_compile query c df) as [rows|e] eqn:Hs; [|done].
  cbn. by apply Hret.
Qed.

End SearchFacts.

(** ** The category choices and the parts they select *)

Lemma unique_elem_of (x : string) (column : list string) :
  x ∈ Pd.unique column ↔ x ∈ column.
Proof.
  induction column as [|y column IH]; [done|]. cbn.
  rewrite !elem_of_cons, list_elem_of_filter, IH.
  destruct (decide (x = y)); intuition.
Qed.

Lemma unique_NoDup (column : list string) : NoDup (Pd.unique column).
Proof.
  induction column as [|y column IH]; cbn; [constructor|].
  constructor.
  - rewrite list_elem_of_filter. intros [? _]. done.
  - by apply NoDup_filter.
Qed.

Lemma categories_elem_of (c : string) (df : DataFrame) :
  c ∈ categories df ↔ ∃ a, a ∈ df ∧ category a = c.
Proof.
  unfold categories. rewrite merge_sort_Permutation, unique_elem_of.
  rewrite list_elem_of_fmap. split; intros (a & ? & ?); eauto.
Qed.

Lemma categories_NoDup (df : DataFrame) : NoDup (categories df).
Proof. unfold categories. rewrite merge_sort_Permutation. apply unique_NoDup. Qed.

Lemma filter_either {A} (P Q : A → Prop)
    `{!∀ x, Decision (P x), !∀ x, Decision (Q x)} (l : list A) :
  (∀ x, P x → Q x → False) →
  filter (λ x, P x ∨ Q x) l ≡ₚ filter P l ++ filter Q l.
Proof.
  intros Hdisj. induction l as [|x l IH]; [done|].
  rewrite !filter_cons.
  destruct (decide (P x)) as [HP|HP], (decide (Q x)) as [HQ|HQ].
  - destruct (Hdisj x HP HQ).
  - rewrite decide_True by tauto. cbn. by rewrite IH.
  - rewrite decide_True by tauto. rewrite IH. apply Permutation_middle.
  - rewrite decide_False by tauto. done.
Qed.

Lemma filter_agree {A} (P Q : A → Prop)
    `{!∀ x, Decision (P x), !∀ x, Decision (Q x)} (l : list A) :
  (∀ x, x ∈ l → P x ↔ Q x) → filter P l = filter Q l.
Proof.
  induction l as [|x l IH]; intros Hl; [done|].
  rewrite !filter_cons, IH by (intros; apply Hl; by right).
  apply decide_ext, Hl. by left.
Qed.

(** The rows of the listed categories, grouped by category. *)
Lemma concat_category_parts (cs : list string) (df : DataFrame) :
  NoDup cs →
  concat ((λ c, filter (λ a, category a = c) df) <$> cs)
  ≡ₚ filter (λ a, category a ∈ cs) df.
Proof.
  induction 1 as [|c cs Hc Hcs IH]; cbn.
  - induction df as [|a df IHdf]; [done|].
    rewrite filter_cons_False by apply not_elem_of_nil. exact IHdf.
  - rewrite IH, <- filter_either.
    + apply reflexive_eq, list_filter_iff. intros a.
      rewrite elem_of_cons. done.
    + intros a -> ?. done.
Qed.

Section CategoryFacts.

Context (re_compile : Re.engine).

Lemma search_articles_category (c : string) (df : DataFrame) :
  c ≠ "All" →
  search_articles re_compile "" c df
  = Returns (filter (λ a, category a = c) df).
Proof.
  intros Hc. by rewrite search_articles_empty_query, filter_category_keeps.
Qed.

(** C8, as amended. With the empty query, every category [c] other than
    the sentinel "All" selects exactly the rows of category [c], in their
    original order; and the parts selected by the distinct categories
    other than "All" hold every row of those categories exactly once.
    When no row has the category "All", the parts are a partition of the
    whole table. *)
Theorem category_filter_partition (df : DataFrame) :
  (∀ c, c ∈ categories df → c ≠ "All" →
     ∃ part, search_articles re_compile "" c df = Returns part
             ∧ part = filter (λ a, category a = c) df
             ∧ (∀ a, a ∈ part → category a = c)
             ∧ part `sublist_of` df)
  ∧ (∃ parts,
       Forall2 (λ c part, search_articles re_compile "" c df = Returns part)
         (filter (λ c, c ≠ "All") (categories df)) parts
       ∧ concat parts ≡ₚ filter (λ a, category a ≠ "All") df)
  ∧ ("All" ∉ categories df →
     ∃ parts,
       Forall2 (λ c part, search_articles re_compile "" c df = Returns part)
         (categories df) parts
       ∧ concat parts ≡ₚ df).
Proof.
  assert (Hparts : ∃ parts,
    Forall2 (λ c part, search_articles re_compile "" c df = Returns part)
      (filter (λ c, c ≠ "All") (categories df)) parts
    ∧ concat parts ≡ₚ filter (λ a, category a ≠ "All") df).
  { exists ((λ c, filter (λ a, category a = c) df)
              <$> filter (λ c, c ≠ "All") (categories df)).
    split.
    - apply Forall2_fmap_r, Forall_Forall2_diag, Forall_forall.
      intros c [Hc _]%list_elem_of_filter.
      by apply search_articles_category.
    - rewrite concat_category_parts
        by apply NoDup_filter, categories_NoDup.
      apply reflexive_eq, filter_agree. intros a Ha.
      rewrite list_elem_of_filter, categories_elem_of. split.
      + intros [? _]. done.
      + intros ?. split; [done|]. by exists a. }
  split; [|split; [done|]].
  - intros c _ Hc. eexists. split; [by apply search_articles_category|].
    split; [done|]. split.
    + by intros a [? _]%list_elem_of_filter.
    + apply sublist_filter.
  - intros Hno. destruct Hparts as (parts & Hsel & Hperm). exists parts.
    replace (filter (λ c, c ≠ "All") (categories df)) with (categories df)
      in Hsel.
    + split; [done|]. rewrite Hperm.
      apply reflexive_eq. clear -Hno.
      assert (Hall : ∀ a, a ∈ df → category a ≠ "All").
      { intros a Ha Heq. apply Hno, categories_elem_of. by exists a. }
      induction df as [|a df IH]; [done|].
      rewrite filter_cons_True by (apply Hall; by left).
      f_equal. apply IH.
      * intros Hin. apply Hno. apply categories_elem_of.
        apply categories_elem_of in Hin as (b & ? & ?). exists b.
        split; [by right|done].
      * intros b Hb. apply Hall. by right.
    + clear -Hno. induction (categories df) as [|c cs IH]; [done|].
      apply not_elem_of_cons in Hno as [? ?].
      rewrite filter_cons_True by done. f_equal. by apply IH.
Qed.

(** C9. The filter value "All" is the sentinel: with it the kept rows are
    decided by headline and content alone (with the empty query, every row
    is kept), and a row of category "All" is returned only under the
    sentinel, never by a filter that restricts the category. *)
Theorem sentinel_all_unrestricted (query : string) :
  (∀ df, search_articles re_compile "" "All" df = Returns df)
  ∧ (∃ keep : Article → bool,
       (∀ a b, headlines a = headlines b → content a = content b →
               keep a = keep b)
       ∧ ∀ df, search_articles re_compile query "All" df = Raises re_error
               ∨ search_articles re_compile query "All" df
                 = Returns (filter (λ a, keep a = true) df))
  ∧ (∀ c df rows a,
       search_articles re_compile query c df = Returns rows →
       a ∈ rows → category a = "All" → c = "All").
Proof.
  split; [|split].
  - intros df. rewrite search_articles_empty_query.
    f_equal. induction df as [|a df IH]; [done|].
    rewrite filter_cons_True by (by left). by f_equal.
  - destruct (Str.truthy (Str.lower (Str.strip query))) eqn:Hq;
      [destruct (re_compile (Str.lower (Str.strip query))) as [found|] eqn:Hre|].
    + exists (λ a, found (Str.lower (headlines a))
                   || found (Str.lower (content a))).
      split; [by intros a b -> ->|].
      intros df. right. rewrite search_articles_filter. cbn zeta.
      rewrite Hq, Hre. f_equal. apply list_filter_iff. intros a.
      unfold category_keeps, text_keeps. rewrite orb_true_iff. tauto.
    + exists (λ _, true). split; [done|].
      intros df. left. rewrite search_articles_filter. cbn zeta.
      by rewrite Hq, Hre.
    + exists (λ _, true). split; [done|].
      intros df. right. rewrite search_articles_filter. cbn zeta.
      rewrite Hq. f_equal. apply list_filter_iff. intros a.
      unfold category_keeps. tauto.
  - intros c df rows a. rewrite search_articles_filter. cbn zeta.
    assert (Hkeep : category_keeps c a → category a = "All" → c = "All").
    { unfold category_keeps. intros [?|?] ?; congruence. }
    destruct (Str.truthy _).
    + destruct (re_compile _); [|done].
      intros [= <-] [[? _] _]%list_elem_of_filter. by apply Hkeep.
    + intros [= <-] [? _]%list_elem_of_filter. by apply Hkeep.
Qed.

End CategoryFacts.

(** C8, counterexample. In [example_table] the category "All" is
    present, and filtering by it returns the sports row as well: the
    claim that every present category selects only its own rows fails. *)
Lemma category_All_selects_other_rows :
  ¬ (∀ c, c ∈ categories example_table →
       ∃ part,
         search_articles (Re.compile Re.no_rest) "" c example_table
         = Returns part
         ∧ ∀ a, a ∈ part → category a = c).
Proof.
  intros Hclaim. destruct (Hclaim "All") as (part & Hpart & Honly).
  - apply categories_elem_of. exists all_row. split; [by left|done].
  - rewrite search_articles_empty_query in Hpart.
    injection Hpart as <-.
    specialize (Honly sports_row). cbn in Honly.
    discriminate Honly. vm_compute. right. left.
Qed.

(** The amended C8 at [example_table]: "Sports" selects the sports row. *)
Lemma category_filter_partition_witness :
  search_articles (Re.compile Re.no_rest) "" "Sports" example_table
  = Returns [sports_row].
Proof.
  destruct (category_filter_partition (Re.compile Re.no_rest) example_table)
    as [Hsel _].
  destruct (Hsel "Sports") as (part & -> & -> & _).
  - apply categories_elem_of. exists sports_row.
    split; [right; left|reflexivity].
  - discriminate.
  - reflexivity.
Defined.

(** C9 at [example_table]: under "All" and the empty query both rows
    come back, the sports row included. *)
Lemma sentinel_all_unrestricted_witness :
  search_articles (Re.compile Re.no_rest) "" "All" example_table
  = Returns [all_row; sports_row].
Proof.
  exact (proj1 (sentinel_all_unrestricted (Re.compile Re.no_rest) "")
           example_table).
Defined.

(** ** The query is a regular expression, not a substring *)

(** C1, at the failing input. The query "b.s" is handed to
    [str.contains] as a pattern: the dot matches the "u" of "bus" and the
    row is returned, although "b.s" occurs in neither headline nor
    content, so the filter of the specification keeps nothing. *)
Theorem search_articles_dot_query (rest : Re.engine) :
  search_articles (Re.compile rest) "b.s" "All" [bus_row] = Returns [bus_row]
  ∧ spec_search "b.s" "All" [bus_row] = [].
Proof. split; reflexivity. Qed.

(** The query "(" is not a pattern: [re.compile] raises, whatever the
    table and the category filter. *)
Lemma search_articles_open_paren (rest : Re.engine) (c : string)
    (df : DataFrame) :
  search_articles (Re.compile rest) "(" c df = Raises re_error.
Proof. by rewrite search_articles_filter. Qed.

(** ** Preprocessing *)

Lemma all_alpha_chars (w : string) :
  Str.all_alpha w = true →
  ∀ c, c ∈ String.list_ascii_of_string w → Str.isalpha_char c = true.
Proof.
  induction w as [|d w IH]; cbn.
  - intros _ c Hc. by apply elem_of_nil in Hc.
  - intros [Hd Hw]%andb_true_iff c [->|Hc]%elem_of_cons; auto.
Qed.

Section PreprocessFacts.

Context (word_tokenize : string → list string) (stop_words : list string).

(** NLTK finds no sentence, hence no token, in the empty text. *)
Hypothesis word_tokenize_empty : word_tokenize "" = [].

(** C3. [preprocess_text] is a function of its input (equal inputs give
    equal token sequences); every token it returns is non-empty, consists
    of alphabetic characters only and is not a stopword; and the empty
    string gives the empty sequence. *)
Theorem preprocess_text_tokens (text : string) :
  (∀ text', text' = text →
     preprocess_text word_tokenize stop_words text'
     = preprocess_text word_tokenize stop_words text)
  ∧ Forall (λ w, w ≠ ""
                 ∧ (∀ c, c ∈ String.list_ascii_of_string w →
                         Str.isalpha_char c = true)
                 ∧ w ∉ stop_words)
      (preprocess_text word_tokenize stop_words text)
  ∧ preprocess_text word_tokenize stop_words "" = [].
Proof.
  split; [by intros ? ->|split].
  - unfold preprocess_text. apply Forall_forall. intros w Hw.
    apply list_elem_of_In, filter_In in Hw as [_ Hw].
    apply andb_true_iff in Hw as [Halpha Hstop].
    apply andb_true_iff in Halpha as [Hne Halpha].
    split; [by intros ->|]. split.
    + by apply all_alpha_chars.
    + by apply bool_decide_eq_true in Hstop.
  - unfold preprocess_text. cbn. by rewrite word_tokenize_empty.
Qed.

End PreprocessFacts.

(** C3 with a whitespace tokenizer and the stopword "the". *)
Lemma preprocess_text_tokens_witness :
  String.words "" = []
  ∧ preprocess_text String.words ["the"] "The Cup 2024 final" = ["cup"; "final"]
  ∧ preprocess_text String.words ["the"] "" = [].
Proof.
  split; [reflexivity|]. split; [reflexivity|].
  apply (preprocess_text_tokens String.words ["the"] eq_refl "").
Defined.

(** ** A batch without tokens *)

Lemma add_documents_no_tokens
    (filter_extremes : Gensim.Dictionary → Gensim.Dictionary)
    (docs : list (list string)) (docno : N) (d : Gensim.Dictionary) :
  Forall (λ doc, doc = []) docs →
  Gensim.token2id d = ∅ →
  Gensim.token2id (Gensim.add_documents_from filter_extremes docno docs d) = ∅.
Proof.
  intros Hdocs. revert docno d.
  induction Hdocs as [|doc docs -> _ IH]; intros docno d Hd; [done|].
  cbn [Gensim.add_documents_from].
  assert (Hlen : (Gensim.prune_at <? Gensim.len d)%N = false).
  { unfold Gensim.len. by rewrite Hd, map_size_empty. }
  rewrite Hlen, andb_false_r. apply IH. cbn. exact Hd.
Qed.

(** ** The search action *)

Lemma for_each_log {A} (f : A → run unit) (g : A → event) (l : list A) :
  (∀ x, f x = emit (g x)) → for_each f l = (g <$> l, Returns tt).
Proof.
  intros Hf. induction l as [|x l IH]; [done|]. cbn [for_each].
  by rewrite IH, Hf.
Qed.

Section MainFacts.

Context (re_compile : Re.engine).
Context (word_tokenize : string → list string) (stop_words : list string).
Context (filter_extremes : Gensim.Dictionary → Gensim.Dictionary).
Context {random_state lda_model : Type}.
Context (lda_fit : random_state → list (list (nat * nat)) →
                   Gensim.Dictionary → nat → nat → lda_model).
Context (print_topics : lda_model → nat → list (nat * string)).

Local Abbreviation search :=
  (on_search re_compile word_tokenize stop_words filter_extremes
     lda_fit print_topics).
Local Abbreviation processed results :=
  ((λ a, preprocess_text word_tokenize stop_words (content a)) <$> results).

(** The log of a search with at least one result, up to the call of the
    builder; what follows is the builder's business. *)
Lemma on_search_matches rng query c df results :
  search_articles re_compile query c df = Returns results →
  results ≠ [] →
  ∃ shown,
    (search rng query c df).1
    = [results_header (length results)] ++ (result_item <$> results)
      ++ [topics_heading; call_build_lda_model (processed results) 5]
      ++ (uncurry (λ idx topic, topic_line (idx + 1) topic) <$> shown).
Proof.
  intros Hs Hne. unfold on_search. rewrite Hs.
  assert (Hdocs : (λ a, preprocess_text word_tokenize stop_words (content a))
                    <$> results ≠ []).
  { intros Hnil. by apply fmap_nil_inv in Hnil. }
  unfold lift, mbind, run_bind at 1. cbn [emit].
  rewrite (bool_decide_eq_true_2 _ Hne), (bool_decide_eq_true_2 _ Hdocs).
  rewrite (for_each_log _ result_item) by done.
  unfold build_lda_model, lift, emit.
  assert (Hshow : ∀ lda, display_topics print_topics lda 5
            = (uncurry (λ idx topic, topic_line (idx + 1) topic)
                 <$> print_topics lda 5, Returns tt)).
  { intros lda. unfold display_topics. apply for_each_log. by intros [??]. }
  unfold mbind, run_bind, mret, run_ret. cbn.
  destruct (LdaModel _ _ _ _ _ _) as [lda|e]; cbn.
  - exists (print_topics lda 5). rewrite Hshow. cbn.
    by rewrite <- ?app_assoc, ?app_nil_r.
  - exists []. cbn. by rewrite <- ?app_assoc.
Qed.

(** C6. When the filter returns no row, the page shows the two explicit
    empty states and ends normally: the log holds no call of
    [build_lda_model], and "No content available" is written instead. *)
Theorem on_search_no_results rng query c df :
  search_articles re_compile query c df = Returns [] →
  search rng query c df
  = ([results_header 0; info_no_articles; topics_heading; write_no_content],
     Returns tt)
  ∧ ∀ docs n, call_build_lda_model docs n ∉ (search rng query c df).1.
Proof.
  intros Hs.
  assert (Hrun : search rng query c df
                 = ([results_header 0; info_no_articles; topics_heading;
                     write_no_content], Returns tt)).
  { unfold on_search. by rewrite Hs. }
  split; [done|]. rewrite Hrun. cbn. intros docs n Hin.
  repeat (apply elem_of_cons in Hin as [?|Hin]; [done|]).
  by apply elem_of_nil in Hin.
Qed.

(** C10. Whenever at least one row matched, [build_lda_model] is called
    with the preprocessed contents, whatever tokens they hold (all of them
    may be empty sequences), and "No content available" is not written;
    that message appears exactly when no row matched. *)
Theorem on_search_builder_called rng query c df results :
  search_articles re_compile query c df = Returns results →
  (results ≠ [] →
     call_build_lda_model (processed results) 5 ∈ (search rng query c df).1)
  ∧ (write_no_content ∈ (search rng query c df).1 ↔ results = []).
Proof.
  intros Hs. split.
  - intros Hne.
    destruct (on_search_matches rng query c df results Hs Hne) as [shown ->].
    rewrite !elem_of_app, !elem_of_cons. right. right. left. by right; left.
  - destruct (decide (results = [])) as [->|Hne].
    + split; [done|]. intros _. unfold on_search. rewrite Hs. cbn.
      rewrite !elem_of_cons. tauto.
    + split; [|done].
      destruct (on_search_matches rng query c df results Hs Hne) as [shown ->].
      rewrite !elem_of_app, !elem_of_cons, !list_elem_of_fmap, elem_of_nil.
      intros [[?|?]|[(a & ? & _)|[[?|[?|?]]|([i t] & ? & _)]]]; done.
Qed.

(** When every matched content preprocesses to no token, the builder is
    called with empty token sequences, the dictionary stays empty, and
    [LdaModel] raises: the search action ends in [ValueError]. *)
Lemma on_search_no_tokens rng query c df results :
  search_articles re_compile query c df = Returns results →
  results ≠ [] →
  Forall (λ a, preprocess_text word_tokenize stop_words (content a) = [])
    results →
  (search rng query c df).2 = Raises ValueError.
Proof.
  intros Hs Hne Hempty. unfold on_search. rewrite Hs.
  assert (Hdocs : processed results ≠ []).
  { intros Hnil. by apply fmap_nil_inv in Hnil. }
  unfold lift, mbind, run_bind at 1. cbn [emit].
  rewrite (bool_decide_eq_true_2 _ Hne), (bool_decide_eq_true_2 _ Hdocs).
  rewrite (for_each_log _ result_item) by done.
  unfold build_lda_model, lift, emit, LdaModel, Gensim.len.
  unfold Gensim.new_Dictionary.
  rewrite add_documents_no_tokens; [done| |done].
  apply Forall_fmap. exact Hempty.
Qed.

End MainFacts.

(** C6 on [example_table]: nothing matches "zzzznomatch". *)
Lemma on_search_no_results_witness :
  search_articles (Re.compile Re.no_rest) "zzzznomatch" "All" example_table
  = Returns []
  ∧ on_search (Re.compile Re.no_rest) String.words ["the"] id
      (λ _ _ _ _ _, tt) (λ _ _, []) tt "zzzznomatch" "All" example_table
    = ([results_header 0; info_no_articles; topics_heading; write_no_content],
       Returns tt).
Proof.
  split; [reflexivity|].
  apply (on_search_no_results (Re.compile Re.no_rest) String.words ["the"] id
           (λ _ _ _ _ _, tt) (λ _ _, []) tt "zzzznomatch" "All" example_table).
  reflexivity.
Defined.

(** C10 on a table whose only row preprocesses to no token at all: the
    builder is still called, with one empty token sequence. *)
Lemma on_search_builder_called_witness :
  search_articles (Re.compile Re.no_rest) "scores" "All" [scores_row]
  = Returns [scores_row]
  ∧ call_build_lda_model [[]] 5
    ∈ (on_search (Re.compile Re.no_rest) String.words ["the"] id
         (λ _ _ _ _ _, tt) (λ _ _, []) tt "scores" "All" [scores_row]).1.
Proof.
  split; [reflexivity|].
  apply (on_search_builder_called (Re.compile Re.no_rest) String.words ["the"]
           id (λ _ _ _ _ _, tt) (λ _ _, []) tt "scores" "All" [scores_row]
           [scores_row] eq_refl).
  discriminate.
Defined.

(** C2, at the failing input. With the query "(" the search action ends
    in [re.error] before anything is shown: the exception is not turned
    into one of the empty states. *)
Theorem on_search_open_paren (rest : Re.engine)
    (word_tokenize : string → list string) (stop_words : list string)
    (filter_extremes : Gensim.Dictionary → Gensim.Dictionary)
    {random_state lda_model : Type}
    (lda_fit : random_state → list (list (nat * nat)) →
               Gensim.Dictionary → nat → nat → lda_model)
    (print_topics : lda_model → nat → list (nat * string))
    (rng : random_state) (c : string) (df : DataFrame) :
  on_search (Re.compile rest) word_tokenize stop_words filter_extremes
    lda_fit print_topics rng "(" c df
  = ([], Raises re_error).
Proof. unfold on_search. by rewrite search_articles_open_paren. Qed.

(** ** Counting the tokens of a document *)

Lemma incr_keys (w : string) (counter : list (string * nat)) :
  (Gensim.incr w counter).*1
  = if bool_decide (w ∈ counter.*1) then counter.*1 else counter.*1 ++ [w].
Proof.
  induction counter as [|[k n] counter IH]; [done|]. cbn.
  destruct (String.eqb_spec k w) as [->|Hne]; cbn.
  - by rewrite bool_decide_eq_true_2 by left.
  - rewrite IH. destruct (decide (w ∈ counter.*1)) as [Hin|Hin].
    + rewrite (bool_decide_eq_true_2 _ Hin).
      by rewrite bool_decide_eq_true_2 by (by right).
    + rewrite (bool_decide_eq_false_2 _ Hin).
      rewrite bool_decide_eq_false_2; [done|].
      rewrite elem_of_cons. intros [?|?]; by subst.
Qed.

Lemma incr_expand (w : string) (counter : list (string * nat)) :
  expand (Gensim.incr w counter) ≡ₚ w :: expand counter.
Proof.
  unfold expand. induction counter as [|[k n] counter IH]; [done|]. cbn.
  destruct (String.eqb_spec k w) as [->|Hne]; cbn; [done|].
  rewrite IH. cbn. symmetry. apply Permutation_middle.
Qed.

Lemma count_tokens_from (document : list string) (counter : list (string * nat)) :
  let counter' := foldl (λ counter w, Gensim.incr w counter) counter document in
  (NoDup counter.*1 → NoDup counter'.*1)
  ∧ (∀ w, w ∈ counter'.*1 ↔ w ∈ counter.*1 ∨ w ∈ document)
  ∧ expand counter' ≡ₚ expand counter ++ document.
Proof.
  revert counter. induction document as [|v document IH]; intros counter; cbn.
  - split; [done|]. split.
    + intros w. rewrite elem_of_nil. tauto.
    + by rewrite app_nil_r.
  - destruct (IH (Gensim.incr v counter)) as (Hnd & Hin & Hex).
    assert (Hkeys : ∀ w, w ∈ (Gensim.incr v counter).*1
                         ↔ w ∈ counter.*1 ∨ w = v).
    { intros w. rewrite incr_keys. case_bool_decide.
      - split; [tauto|]. intros [?| ->]; done.
      - rewrite elem_of_app, list_elem_of_singleton. done. }
    split; [|split].
    + intros Hc. apply Hnd. rewrite incr_keys. case_bool_decide; [done|].
      apply NoDup_app. split; [done|]. split; [|apply NoDup_singleton].
      intros w Hw ->%list_elem_of_singleton. done.
    + intros w. rewrite Hin, Hkeys, elem_of_cons. tauto.
    + rewrite Hex, incr_expand. cbn. apply Permutation_middle.
Qed.

Lemma count_tokens_keys_NoDup (document : list string) :
  NoDup (Gensim.count_tokens document).*1.
Proof. apply (count_tokens_from document []). constructor. Qed.

Lemma count_tokens_keys (document : list string) (w : string) :
  w ∈ (Gensim.count_tokens document).*1 ↔ w ∈ document.
Proof.
  destruct (count_tokens_from document []) as (_ & Hin & _).
  rewrite Hin. cbn. rewrite elem_of_nil. tauto.
Qed.

Lemma count_tokens_expand (document : list string) :
  expand (Gensim.count_tokens document) ≡ₚ document.
Proof. by destruct (count_tokens_from document []) as (_ & _ & ->). Qed.

(** ** Ids are positions in the order of assignment *)

Lemma numbered_empty : numbered ∅ [].
Proof.
  split; [done|]. split; [constructor|].
  intros w i. by rewrite lookup_empty, lookup_nil.
Qed.

Lemma numbered_fresh (m : gmap string nat) (l : list string) (w : string) :
  numbered m l → w ∉ l → m !! w = None.
Proof.
  intros (_ & _ & Hm) Hw. destruct (m !! w) as [i|] eqn:Hi; [|done].
  apply Hm in Hi. destruct Hw. by eapply list_elem_of_lookup_2.
Qed.

Lemma numbered_assign (m : gmap string nat) (l : list string) (w : string) :
  numbered m l → w ∉ l → numbered (Gensim.assign m w) (l ++ [w]).
Proof.
  intros Hnum Hw. pose proof (numbered_fresh m l w Hnum Hw) as Hfresh.
  destruct Hnum as (Hsize & Hnd & Hm). unfold Gensim.assign.
  split; [|split].
  - rewrite map_size_insert_None, length_app by done. cbn. lia.
  - apply NoDup_app. split; [done|]. split; [|apply NoDup_singleton].
    by intros v Hv ->%list_elem_of_singleton.
  - intros v i. rewrite lookup_insert, lookup_app_Some, Hsize.
    rewrite list_lookup_singleton_Some. case_decide as Hv.
    + subst v. split.
      * intros [= <-]. right. split; [lia|]. split; [lia|done].
      * intros [Hl|(? & ? & _)]; [|f_equal; lia].
        destruct Hw. by eapply list_elem_of_lookup_2.
    + rewrite Hm. split; [by left|]. intros [?|(_ & _ & ?)]; done.
Qed.

Lemma numbered_assign_all (ws : list string) (m : gmap string nat)
    (l : list string) :
  numbered m l → NoDup ws → (∀ w, w ∈ ws → w ∉ l) →
  numbered (foldl Gensim.assign m ws) (l ++ ws).
Proof.
  revert m l. induction ws as [|w ws IH]; intros m l Hnum Hnd Hnew; cbn.
  - by rewrite app_nil_r.
  - apply NoDup_cons in Hnd as [Hw Hnd].
    rewrite cons_middle, (assoc_L (++)). apply IH; [|done|].
    + apply numbered_assign; [done|]. apply Hnew. by left.
    + intros v Hv. rewrite elem_of_app, list_elem_of_singleton.
      intros [Hl| ->]; [|done]. by apply (Hnew v); [right|].
Qed.

Lemma numbered_inj (m : gmap string nat) (l : list string) (v w : string)
    (i : nat) :
  numbered m l → m !! v = Some i → m !! w = Some i → v = w.
Proof.
  intros (_ & _ & Hm) Hv%Hm Hw%Hm. congruence.
Qed.

Lemma numbered_known (m : gmap string nat) (l : list string) (w : string) :
  numbered m l → w ∈ l → is_Some (m !! w).
Proof.
  intros (_ & _ & Hm) [i Hi]%list_elem_of_lookup_1. exists i. by apply Hm.
Qed.

(** ** The new tokens of a document, in sorted order *)

Lemma numbered_unknown (m : gmap string nat) (l : list string) (w : string) :
  numbered m l → m !! w = None ↔ w ∉ l.
Proof.
  intros Hnum. split.
  - intros Hnone Hin. destruct (numbered_known m l w Hnum Hin) as [i Hi].
    congruence.
  - by apply numbered_fresh.
Qed.

Lemma new_tokens_NoDup (seen doc : list string) : NoDup (new_tokens seen doc).
Proof. unfold new_tokens. rewrite merge_sort_Permutation. apply NoDup_remove_dups. Qed.

Lemma new_tokens_elem_of (seen doc : list string) (w : string) :
  w ∈ new_tokens seen doc ↔ w ∈ doc ∧ w ∉ seen.
Proof.
  unfold new_tokens.
  rewrite merge_sort_Permutation, elem_of_remove_dups, list_elem_of_filter.
  tauto.
Qed.

(** What [doc2bow] computes as [missing] is the sorted list of the tokens
    of the document that have no id yet. *)
Lemma missing_new_tokens (m : gmap string nat) (l doc : list string) :
  numbered m l →
  (merge_sort Gensim.by_token
     (filter (λ x, m !! x.1 = None) (Gensim.count_tokens doc))).*1
  = new_tokens l doc.
Proof.
  intros Hnum.
  set (missing := filter (λ x, m !! x.1 = None) (Gensim.count_tokens doc)).
  apply (Sorted_unique String.le).
  - apply (Sorted_fmap fst Gensim.by_token String.le); [done|].
    apply (Sorted_merge_sort Gensim.by_token).
  - apply (Sorted_merge_sort String.le).
  - rewrite merge_sort_Permutation. apply NoDup_Permutation.
    + eapply sublist_NoDup; [apply count_tokens_keys_NoDup|].
      apply fmap_sublist, sublist_filter.
    + apply new_tokens_NoDup.
    + intros w. rewrite new_tokens_elem_of, <- (numbered_unknown m l w Hnum).
      rewrite <- (count_tokens_keys doc), !list_elem_of_fmap. split.
      * intros ([v n] & -> & [Hnone Hin]%list_elem_of_filter).
        split; [|done]. by exists (v, n).
      * intros [([v n] & -> & Hin) Hnone]. exists (v, n). split; [done|].
        by apply list_elem_of_filter.
Qed.

(** One call of [doc2bow] with [allow_update=True] appends the new tokens
    of the document to the id order. *)
Lemma doc2bow_update_numbered (d : Gensim.Dictionary) (l doc : list string) :
  numbered (Gensim.token2id d) l →
  numbered (Gensim.token2id (Gensim.doc2bow d doc true).2)
    (l ++ new_tokens l doc).
Proof.
  intros Hnum. cbn. rewrite (missing_new_tokens _ l) by done.
  apply numbered_assign_all; [done|apply new_tokens_NoDup|].
  by intros w [_ ?]%new_tokens_elem_of.
Qed.

(** ** Building the dictionary of a batch *)

Lemma batch_order_from_tokens (docs : list (list string)) (l : list string) :
  list_to_set (batch_order_from l docs) =@{gset string}
  list_to_set l ∪ vocabulary docs.
Proof.
  revert l. induction docs as [|doc docs IH]; intros l; cbn.
  - unfold vocabulary. cbn. by rewrite (right_id_L ∅ (∪)).
  - rewrite IH. unfold vocabulary. cbn. apply set_eq. intros w.
    rewrite !elem_of_union, !elem_of_list_to_set, !elem_of_app.
    rewrite new_tokens_elem_of. destruct (decide (w ∈ l)); tauto.
Qed.

Section DictionaryFacts.

Context (filter_extremes : Gensim.Dictionary → Gensim.Dictionary).

(** Below [prune_at] distinct tokens the pruning never runs, and the ids
    follow the documents in order. *)
Lemma add_documents_numbered (docs : list (list string)) (docno : N)
    (d : Gensim.Dictionary) (l : list string) :
  numbered (Gensim.token2id d) l →
  (N.of_nat (size (list_to_set l ∪ vocabulary docs : gset string))
   ≤ Gensim.prune_at)%N →
  numbered
    (Gensim.token2id (Gensim.add_documents_from filter_extremes docno docs d))
    (batch_order_from l docs).
Proof.
  revert docno d l.
  induction docs as [|doc docs IH]; intros docno d l Hnum Hbound; [done|].
  cbn [Gensim.add_documents_from batch_order_from].
  assert (Hlen : (Gensim.prune_at <? Gensim.len d)%N = false).
  { apply N.ltb_ge. etrans; [|exact Hbound].
    unfold Gensim.len. destruct Hnum as (-> & Hnd & _).
    rewrite <- (size_list_to_set (C:=gset string) l) by done.
    assert (size (list_to_set l : gset string)
            ≤ size (list_to_set l ∪ vocabulary (doc :: docs) : gset string))
      by apply subseteq_size, union_subseteq_l.
    lia. }
  rewrite Hlen, andb_false_r. apply IH.
  - by apply doc2bow_update_numbered.
  - etrans; [|exact Hbound]. apply reflexive_eq. do 2 f_equal.
    unfold vocabulary. cbn. apply set_eq. intros w.
    rewrite !elem_of_union, !elem_of_list_to_set, !elem_of_app.
    rewrite new_tokens_elem_of. destruct (decide (w ∈ l)); tauto.
Qed.

Lemma new_Dictionary_numbered (docs : list (list string)) :
  (N.of_nat (size (vocabulary docs)) ≤ Gensim.prune_at)%N →
  numbered (Gensim.token2id (Gensim.new_Dictionary filter_extremes docs))
    (batch_order docs).
Proof.
  intros Hbound. apply add_documents_numbered; [apply numbered_empty|].
  etrans; [|exact Hbound]. apply reflexive_eq. do 2 f_equal.
  cbn. by rewrite (left_id_L ∅ (∪)).
Qed.


End DictionaryFacts.



(** ** Bags of words and their decoding *)



(** The items of a dictionary filled with pairs of distinct keys. *)
Lemma filled_items (ps : list (nat * nat)) (r : gmap nat nat) :
  NoDup ps.*1 → (∀ p, p ∈ ps → r !! p.1 = None) →
  map_to_list (foldl (λ r p, <[p.1 := p.2]> r) r ps) ≡ₚ ps ++ map_to_list r.
Proof.
  revert r. induction ps as [|[i n] ps IH]; intros r Hnd Hr; cbn; [done|].
  cbn in Hnd. apply NoDup_cons in Hnd as [Hi Hnd].
  rewrite IH; [|done|].
  - rewrite map_to_list_insert by (apply (Hr (i, n)); by left).
    symmetry. apply Permutation_middle.
  - intros [j k] Hp. cbn. rewrite lookup_insert_ne.
    + apply (Hr (j, k)). by right.
    + intros <-. apply Hi. apply list_elem_of_fmap. by exists (i, k).
Qed.

Lemma result_known (m : gmap string nat) (counter : list (string * nat))
    (r : gmap nat nat) :
  Forall (λ x, is_Some (m !! x.1)) counter →
  foldl (λ r x, match m !! x.1 with
                | Some id => <[id := x.2]> r
                | None => r
                end) r counter
  = foldl (λ r p, <[p.1 := p.2]> r) r (id_pair m <$> counter).
Proof.
  intros Hknown. revert r.
  induction Hknown as [|x counter [i Hi] _ IH]; intros r; cbn; [done|].
  rewrite Hi. cbn. apply IH.
Qed.

(** Without update, the bag of a document whose tokens all have ids is,
    up to order, the counter with every token replaced by its id. *)
Lemma doc2bow_known (d : Gensim.Dictionary) (l doc : list string) :
  numbered (Gensim.token2id d) l →
  (∀ w, w ∈ doc → w ∈ l) →
  (Gensim.doc2bow d doc false).1
  ≡ₚ id_pair (Gensim.token2id d) <$> Gensim.count_tokens doc.
Proof.
  intros Hnum Hdoc. cbn. rewrite merge_sort_Permutation.
  assert (Hknown : Forall (λ x, is_Some (Gensim.token2id d !! x.1))
                     (Gensim.count_tokens doc)).
  { apply Forall_forall. intros [w n] Hx. cbn.
    apply (numbered_known _ l); [done|]. apply Hdoc, count_tokens_keys.
    apply list_elem_of_fmap. by exists (w, n). }
  rewrite result_known by done.
  rewrite filled_items.
  - by rewrite map_to_list_empty, app_nil_r.
  - replace ((id_pair (Gensim.token2id d) <$> Gensim.count_tokens doc).*1)
      with ((λ w, default 0 (Gensim.token2id d !! w))
              <$> (Gensim.count_tokens doc).*1)
      by (by rewrite <- !list_fmap_compose).
    apply NoDup_fmap_2_strong; [|apply count_tokens_keys_NoDup].
    intros v w Hv Hw Heq.
    apply (proj1 (count_tokens_keys doc v)) in Hv.
    apply (proj1 (count_tokens_keys doc w)) in Hw.
    destruct (numbered_known _ l v Hnum (Hdoc v Hv)) as [i Hi].
    destruct (numbered_known _ l w Hnum (Hdoc w Hw)) as [j Hj].
    rewrite Hi, Hj in Heq. cbn in Heq. subst j.
    by eapply numbered_inj.
  - intros. apply lookup_empty.
Qed.



Section RoundTrip.

Context (filter_extremes : Gensim.Dictionary → Gensim.Dictionary).


End RoundTrip.


(** ** Plain queries: the pattern is its own text *)

Lemma match_here_Fail_Cat (r : Re.regex) (s : string) :
  Re.match_here (Re.Cat Re.Fail r) s = false.
Proof. induction s as [|c s IH]; [done|]. cbn. exact IH. Qed.

Lemma match_here_Or (r1 r2 : Re.regex) (s : string) :
  Re.match_here (Re.Or r1 r2) s = Re.match_here r1 s || Re.match_here r2 s.
Proof.
  revert r1 r2. induction s as [|c s IH]; intros r1 r2; cbn.
  - by rewrite !orb_false_r.
  - rewrite IH.
    destruct (Re.nullable r1), (Re.nullable r2); cbn; try done.
    by rewrite orb_true_r.
Qed.

Lemma match_here_Empty_Cat (r : Re.regex) (s : string) :
  Re.match_here (Re.Cat Re.Empty r) s = Re.match_here r s.
Proof.
  destruct s as [|c s]; cbn; [done|].
  by rewrite match_here_Or, match_here_Fail_Cat.
Qed.

Lemma match_here_literal (q s : string) :
  Re.match_here (Re.sequence (Re.Lit <$> String.list_ascii_of_string q)) s
  = Str.startswith s q.
Proof.
  revert s. induction q as [|c q IH]; intros s; cbn.
  - by destruct s.
  - destruct s as [|d s]; cbn; [done|].
    rewrite (Ascii.eqb_sym c d). destruct (Ascii.eqb d c).
    + by rewrite match_here_Empty_Cat, IH.
    + by rewrite match_here_Fail_Cat.
Qed.

Lemma search_literal (q s : string) :
  Re.search (Re.sequence (Re.Lit <$> String.list_ascii_of_string q)) s
  = Str.contains s q.
Proof.
  induction s as [|d s IH]; cbn -[Re.match_here].
  - by rewrite match_here_literal.
  - by rewrite match_here_literal, IH.
Qed.

Lemma plain_in_fragment (q : string) :
  plain q = true → Re.in_fragment (String.list_ascii_of_string q) = true.
Proof.
  induction q as [|c q IH]; [done|]. cbn [plain String.list_ascii_of_string].
  intros [Hc Hq]%andb_true_iff. cbn [Re.in_fragment]. rewrite (IH Hq).
  apply negb_true_iff in Hc. unfold special in Hc.
  repeat (apply orb_false_iff in Hc as [Hc ?]).
  unfold Re.beyond_char, Re.is_quantifier.
  repeat match goal with H : Ascii.eqb c _ = false |- _ => rewrite H; clear H end.
  cbn. by destruct (String.list_ascii_of_string q).
Qed.

Lemma parse_plain (q : string) (cur : Re.frame) :
  plain q = true →
  Re.parse (String.list_ascii_of_string q) cur []
  = Some (Re.close_frame
            (Re.Frame (Re.branches cur)
               (reverse (Re.Lit <$> String.list_ascii_of_string q)
                ++ Re.items cur))).
Proof.
  revert cur. induction q as [|c q IH]; intros cur; cbn [plain].
  - intros _. by destruct cur.
  - intros [Hc Hq]%andb_true_iff. cbn [String.list_ascii_of_string Re.parse].
    apply negb_true_iff in Hc. unfold special in Hc.
    repeat (apply orb_false_iff in Hc as [Hc ?]).
    unfold Re.quantifier.
    repeat match goal with H : Ascii.eqb c _ = false |- _ => rewrite H; clear H end.
    rewrite (IH _ Hq). unfold Re.push. cbn [Re.branches Re.items].
    by rewrite fmap_cons, reverse_cons, <- (assoc_L (++)).
Qed.

(** A plain query compiles, inside the fragment, to the substring test. *)
Lemma compile_plain (rest : Re.engine) (q : string) :
  plain q = true →
  ∃ found, Re.compile rest q = Some found ∧ ∀ s, found s = Str.contains s q.
Proof.
  intros Hq. unfold Re.compile. rewrite (plain_in_fragment q Hq).
  rewrite (parse_plain q Re.empty_frame Hq). eexists. split; [reflexivity|].
  intros s. unfold Re.close_frame, Re.close_branch.
  cbn [Re.branches Re.items Re.empty_frame].
  rewrite app_nil_r, reverse_singleton, reverse_involutive.
  cbn [Re.alternation]. apply search_literal.
Qed.

Lemma filter_bool {A} (f : A → bool) (l : list A) :
  filter (λ a, f a = true) l = List.filter f l.
Proof.
  induction l as [|a l IH]; [done|]. rewrite filter_cons. cbn.
  destruct (f a); [rewrite decide_True by done|rewrite decide_False by done];
    by rewrite IH.
Qed.

(** For a query whose trimmed, lowercased text holds no special
    character, [search_articles] returns exactly the rows the
    specification describes: the substring filter, in order. *)
Theorem search_articles_plain_query (rest : Re.engine)
    (query c : string) (df : DataFrame) :
  plain (Str.lower (Str.strip query)) = true →
  search_articles (Re.compile rest) query c df
  = Returns (spec_search query c df).
Proof.
  intros Hq. rewrite search_articles_filter. cbn zeta.
  unfold spec_search. rewrite <- filter_bool.
  assert (Hcat : ∀ a, category_keeps c a ↔ spec_category_ok c a = true).
  { intros a. unfold category_keeps, spec_category_ok.
    rewrite orb_true_iff, !String.eqb_eq. done. }
  destruct (Str.truthy (Str.lower (Str.strip query))) eqn:Htruthy.
  - destruct (compile_plain rest _ Hq) as (found & -> & Hfound).
    f_equal. apply list_filter_iff. intros a.
    unfold text_keeps, spec_query_ok. rewrite Htruthy, !Hfound, Hcat.
    rewrite andb_true_iff. cbn. rewrite orb_true_iff. done.
  - f_equal. apply list_filter_iff. intros a.
    unfold spec_query_ok. rewrite Htruthy, Hcat. cbn.
    rewrite andb_true_r. done.
Qed.

(** The plain query "cricket" on two sports rows and one other row. *)
Lemma search_articles_plain_query_witness :
  plain (Str.lower (Str.strip " Cricket ")) = true
  ∧ search_articles (Re.compile Re.no_rest) " Cricket " "Sports"
      [mkArticle "Cricket: India win" "" "Sports" "";
       mkArticle "Markets" "A cricket bat maker lists" "Business" "";
       mkArticle "Hockey" "No CRICKET today" "Sports" ""]
    = Returns [mkArticle "Cricket: India win" "" "Sports" "";
               mkArticle "Hockey" "No CRICKET today" "Sports" ""].
Proof.
  split; [reflexivity|].
  exact (search_articles_plain_query Re.no_rest " Cricket " "Sports" _ eq_refl).
Defined.

(** The search for "scores" on [scores_row] ends in [ValueError]. *)
Lemma on_search_no_tokens_witness :
  search_articles (Re.compile Re.no_rest) "scores" "All" [scores_row]
  = Returns [scores_row]
  ∧ (on_search (Re.compile Re.no_rest) String.words ["the"] id
       (λ _ _ _ _ _, tt) (λ _ _, []) tt "scores" "All" [scores_row]).2
    = Raises ValueError.
Proof.
  split; [reflexivity|].
  apply (on_search_no_tokens (Re.compile Re.no_rest) String.words ["the"] id
           (λ _ _ _ _ _, tt) (λ _ _, []) tt "scores" "All" [scores_row]
           [scores_row] eq_refl).
  - discriminate.
  - repeat constructor.
Defined.

(** ** Case and surrounding whitespace of a text *)

Lemma lower_char_idemp (c : ascii) :
  Str.lower_char (Str.lower_char c) = Str.lower_char c.
Proof. destruct c as [[] [] [] [] [] [] [] []]; reflexivity. Qed.

Lemma isspace_lower_char (c : ascii) :
  Str.isspace (Str.lower_char c) = Str.isspace c.
Proof. destruct c as [[] [] [] [] [] [] [] []]; reflexivity. Qed.

Lemma lower_idemp (s : string) : Str.lower (Str.lower s) = Str.lower s.
Proof.
  induction s as [|c s IH]; [done|]. cbn. by rewrite lower_char_idemp, IH.
Qed.

Lemma lower_lstrip (s : string) :
  Str.lower (Str.lstrip s) = Str.lstrip (Str.lower s).
Proof.
  induction s as [|c s IH]; [done|]. cbn. rewrite isspace_lower_char.
  by destruct (Str.isspace c).
Qed.

Lemma lower_rstrip (s : string) :
  Str.lower (Str.rstrip s) = Str.rstrip (Str.lower s).
Proof.
  induction s as [|c s IH]; [done|]. cbn. rewrite <- IH, isspace_lower_char.
  destruct (Str.rstrip s); cbn; [|done]. by destruct (Str.isspace c).
Qed.

Lemma lower_strip (s : string) :
  Str.lower (Str.strip s) = Str.strip (Str.lower s).
Proof. unfold Str.strip. by rewrite lower_rstrip, lower_lstrip. Qed.

Lemma rstrip_idemp (s : string) : Str.rstrip (Str.rstrip s) = Str.rstrip s.
Proof.
  induction s as [|c s IH]; [done|]. cbn.
  destruct (Str.rstrip s) as [|d r] eqn:Hr.
  - destruct (Str.isspace c) eqn:Hc; cbn; [done|]. by rewrite Hc.
  - cbn [Str.rstrip]. cbn [Str.rstrip] in IH. by rewrite IH.
Qed.

Lemma lstrip_head (s : string) :
  match Str.lstrip s with
  | EmptyString => True
  | String c _ => Str.isspace c = false
  end.
Proof.
  induction s as [|c s IH]; [done|]. cbn.
  by destruct (Str.isspace c) eqn:Hc.
Qed.

Lemma strip_idemp (s : string) : Str.strip (Str.strip s) = Str.strip s.
Proof.
  unfold Str.strip. pose proof (lstrip_head s) as Hhead.
  destruct (Str.lstrip s) as [|c t]; [done|].
  assert (Hl : Str.lstrip (Str.rstrip (String c t)) = Str.rstrip (String c t)).
  { cbn. destruct (Str.rstrip t); rewrite ?Hhead; cbn; by rewrite Hhead. }
  by rewrite Hl, rstrip_idemp.
Qed.

Lemma lstrip_blank (s : string) :
  Forall (λ c, Str.isspace c = true) (String.list_ascii_of_string s) →
  Str.lstrip s = "".
Proof.
  induction s as [|c s IH]; [done|]. cbn.
  intros [Hc Hs]%Forall_cons. rewrite Hc. by apply IH.
Qed.

(** ** More on [search_articles] *)

Lemma filter_sublist_impl {A} (P Q : A → Prop)
    `{!∀ x, Decision (P x), !∀ x, Decision (Q x)} (l : list A) :
  (∀ x, P x → Q x) → filter P l `sublist_of` filter Q l.
Proof.
  intros HPQ. rewrite <- (list_filter_filter_l P Q) by done.
  apply sublist_filter.
Qed.

Section SearchMore.

Context (re_compile : Re.engine).

(** The query enters [search_articles] only through its trimmed,
    lowercased form. *)
Lemma search_articles_normal (q1 q2 c : string) (df : DataFrame) :
  Str.lower (Str.strip q1) = Str.lower (Str.strip q2) →
  search_articles re_compile q1 c df = search_articles re_compile q2 c df.
Proof. intros Hq. rewrite !search_articles_filter. cbn zeta. by rewrite Hq. Qed.

(** The letter case of the query and the whitespace around it do not
    change the result: lowercasing the query, or trimming it, before the
    call gives the same outcome. *)
Theorem search_articles_query_form (query c : string) (df : DataFrame) :
  search_articles re_compile (Str.lower query) c df
  = search_articles re_compile query c df
  ∧ search_articles re_compile (Str.strip query) c df
    = search_articles re_compile query c df.
Proof.
  split; apply search_articles_normal.
  - by rewrite <- lower_strip, lower_idemp.
  - by rewrite strip_idemp.
Qed.

(** A query of whitespace only is the empty query: no pattern is
    compiled and only the category decides. *)
Theorem search_articles_blank_query (query c : string) (df : DataFrame) :
  Forall (λ ch, Str.isspace ch = true) (String.list_ascii_of_string query) →
  search_articles re_compile query c df
  = Returns (filter (category_keeps c) df).
Proof.
  intros Hblank. rewrite <- (search_articles_empty_query re_compile).
  apply search_articles_normal. unfold Str.strip.
  by rewrite (lstrip_blank query Hblank).
Qed.

(** Whatever the engine, a search either raises [re.error] or returns
    rows of the table in their original order, none repeated or invented;
    in particular never more rows than the table has. *)
Theorem search_articles_sublist (query c : string) (df : DataFrame) :
  match search_articles re_compile query c df with
  | Returns rows => rows `sublist_of` df ∧ length rows ≤ length df
  | Raises e => e = re_error
  end.
Proof.
  rewrite search_articles_filter. cbn zeta.
  destruct (Str.truthy _); [destruct (re_compile _)|]; try done;
    split; auto using sublist_filter, sublist_length.
Qed.


(** Rows are judged one by one: searching a table made of two parts
    gives the results of the parts, one after the other. *)
Theorem search_articles_app (query c : string) (df1 df2 : DataFrame) :
  search_articles re_compile query c (df1 ++ df2)
  = (rows1 ← search_articles re_compile query c df1;
     rows2 ← search_articles re_compile query c df2;
     Returns (rows1 ++ rows2)).
Proof.
  rewrite !search_articles_filter. cbn zeta.
  destruct (Str.truthy _); [destruct (re_compile _)|]; cbn;
    by rewrite ?filter_app.
Qed.

(** The two filters compose in either order: filtering by category and
    then by text, or by text and then by category, is the combined
    search; and the result of a category search is part of the result
    under "All". *)
Theorem search_articles_compose (query c : string) (df : DataFrame) :
  (search_articles re_compile "" c df
     ≫= search_articles re_compile query "All")
  = search_articles re_compile query c df
  ∧ (search_articles re_compile query "All" df
       ≫= search_articles re_compile "" c)
    = search_articles re_compile query c df
  ∧ ∀ rows_c rows_all,
      search_articles re_compile query c df = Returns rows_c →
      search_articles re_compile query "All" df = Returns rows_all →
      rows_c `sublist_of` rows_all.
Proof.
  assert (Hall : ∀ a, category_keeps "All" a) by (by left).
  split; [|split].
  - rewrite search_articles_empty_query. cbn.
    rewrite !search_articles_filter. cbn zeta.
    destruct (Str.truthy _); [destruct (re_compile _)|]; try done; f_equal.
    + rewrite list_filter_filter. apply list_filter_iff. intros a.
      specialize (Hall a). tauto.
    + rewrite list_filter_filter. apply list_filter_iff. intros a.
      specialize (Hall a). tauto.
  - rewrite (search_articles_filter _ query "All").
    rewrite (search_articles_filter _ query c). cbn zeta.
    destruct (Str.truthy _); [destruct (re_compile _)|];
      cbn [mbind outcome_bind]; try done;
      rewrite search_articles_empty_query; f_equal.
    + rewrite list_filter_filter. apply list_filter_iff. intros a.
      specialize (Hall a). tauto.
    + rewrite list_filter_filter. apply list_filter_iff. intros a.
      specialize (Hall a). tauto.
  - intros rows_c rows_all. rewrite !search_articles_filter. cbn zeta.
    destruct (Str.truthy _); [destruct (re_compile _)|]; try done.
    + intros [= <-] [= <-]. apply filter_sublist_impl.
      intros a [_ ?]. split; [apply Hall|done].
    + intros [= <-] [= <-]. by apply filter_sublist_impl.
Qed.

(** The select box: after the sentinel, the categories of the table in
    ascending order, each once; and with the empty query every category
    offered selects at least one row. *)
Theorem category_options_offer (df : DataFrame) :
  head (category_options df) = Some "All"
  ∧ Sorted String.le (tail (category_options df))
  ∧ NoDup (tail (category_options df))
  ∧ (∀ c, c ∈ tail (category_options df) ↔ ∃ a, a ∈ df ∧ category a = c)
  ∧ (∀ c, c ∈ tail (category_options df) →
       ∃ rows, search_articles re_compile "" c df = Returns rows
               ∧ rows ≠ []).
Proof.
  cbn [category_options head tail].
  split; [done|]. split; [apply (Sorted_merge_sort String.le)|].
  split; [apply categories_NoDup|].
  split; [intros c; apply categories_elem_of|].
  intros c (a & Ha & Hc)%categories_elem_of.
  rewrite search_articles_empty_query. eexists. split; [done|].
  intros Hnil.
  assert (Hin : a ∈ filter (category_keeps c) df).
  { apply list_elem_of_filter. split; [by right|done]. }
  rewrite Hnil in Hin. by apply elem_of_nil in Hin.
Qed.

End SearchMore.

(** A query of three blanks on [example_table]. *)
Lemma search_articles_blank_query_witness :
  Forall (λ ch, Str.isspace ch = true) (String.list_ascii_of_string "   ")
  ∧ search_articles (Re.compile Re.no_rest) "   " "Sports" example_table
    = Returns [sports_row].
Proof.
  assert (Hblank : Forall (λ ch, Str.isspace ch = true)
                     (String.list_ascii_of_string "   "))
    by (repeat constructor).
  split; [exact Hblank|].
  exact (search_articles_blank_query (Re.compile Re.no_rest) "   " "Sports"
           example_table Hblank).
Defined.

(** ** The corpus handed to the model *)

Lemma incr_positive (w : string) (counter : list (string * nat)) :
  Forall (λ x, 1 ≤ x.2) counter → Forall (λ x, 1 ≤ x.2) (Gensim.incr w counter).
Proof.
  induction 1 as [|[k n] counter Hn Hc IH]; cbn.
  - repeat constructor.
  - destruct (String.eqb k w); constructor; cbn in *; try lia; done.
Qed.

Lemma count_tokens_positive (document : list string) :
  Forall (λ x, 1 ≤ x.2) (Gensim.count_tokens document).
Proof.
  unfold Gensim.count_tokens.
  assert (Hfrom : ∀ counter, Forall (λ x, 1 ≤ x.2) counter →
            Forall (λ x, 1 ≤ x.2)
              (foldl (λ counter w, Gensim.incr w counter) counter document)).
  { induction document as [|w document IH]; intros counter Hc; cbn; [done|].
    by apply IH, incr_positive. }
  by apply Hfrom.
Qed.

Lemma expand_length (counter : list (string * nat)) :
  length (expand counter) = sum_list counter.*2.
Proof.
  unfold expand. induction counter as [|[w n] counter IH]; [done|].
  rewrite bind_cons, length_app, length_replicate, IH. done.
Qed.

Section Corpus.

Context (filter_extremes : Gensim.Dictionary → Gensim.Dictionary).

(** For a batch within the pruning bound, every bag of words of the
    corpus lists its ids in ascending order, each id once and below the
    size of the dictionary, with counts of at least one that add up to
    the length of the document; it has one entry per distinct token. *)
Theorem corpus_well_formed (docs : list (list string)) :
  (N.of_nat (size (vocabulary docs)) ≤ Gensim.prune_at)%N →
  let dictionary := Gensim.new_Dictionary filter_extremes docs in
  let corpus := (λ doc, (Gensim.doc2bow dictionary doc false).1) <$> docs in
  Forall2 (λ doc bow,
             Sorted Gensim.by_id bow
             ∧ NoDup bow.*1
             ∧ Forall (λ p, p.1 < size (Gensim.token2id dictionary) ∧ 1 ≤ p.2)
                 bow
             ∧ sum_list bow.*2 = length doc
             ∧ length bow = length (remove_dups doc))
    docs corpus.
Proof.
  intros Hbound dictionary corpus.
  pose proof (new_Dictionary_numbered filter_extremes docs Hbound) as Hnum.
  fold dictionary in Hnum.
  apply Forall2_fmap_r, Forall_Forall2_diag, Forall_forall. intros doc Hdoc.
  assert (Hin : ∀ w, w ∈ doc → w ∈ batch_order docs).
  { intros w Hw. unfold batch_order.
    rewrite <- (elem_of_list_to_set (C:=gset string)), batch_order_from_tokens.
    apply elem_of_union_r, elem_of_list_to_set, list_elem_of_In, in_concat.
    exists doc. by rewrite <- !list_elem_of_In. }
  pose proof (doc2bow_known dictionary _ doc Hnum Hin) as Hbow.
  split; [|split; [|split; [|split]]].
  - cbn. apply (Sorted_merge_sort Gensim.by_id).
  - cbn. rewrite merge_sort_Permutation. apply NoDup_fst_map_to_list.
  - rewrite Hbow. apply Forall_fmap, Forall_forall. intros [w n] Hx.
    split.
    + cbn. assert (Hw : w ∈ doc).
      { apply count_tokens_keys, list_elem_of_fmap. by exists (w, n). }
      destruct (numbered_known _ _ w Hnum (Hin w Hw)) as [i Hi].
      rewrite Hi. cbn. destruct Hnum as (-> & _ & Hm).
      apply Hm in Hi. by eapply lookup_lt_Some.
    + pose proof (count_tokens_positive doc) as Hpos.
      rewrite Forall_forall in Hpos. apply (Hpos _ Hx).
  - rewrite Hbow, <- list_fmap_compose.
    change (snd ∘ id_pair (Gensim.token2id dictionary))
      with (snd : string * nat → nat).
    by rewrite <- expand_length, count_tokens_expand.
  - rewrite Hbow, length_fmap, <- (length_fmap fst).
    apply Permutation_length, NoDup_Permutation.
    + apply count_tokens_keys_NoDup.
    + apply NoDup_remove_dups.
    + intros w. by rewrite count_tokens_keys, elem_of_remove_dups.
Qed.

End Corpus.

(** The corpus of a batch with a repeated token. *)
Lemma corpus_well_formed_witness :
  (N.of_nat (size (vocabulary [["b"; "a"; "b"]; ["c"; "a"]]))
   ≤ Gensim.prune_at)%N
  ∧ (λ doc, (Gensim.doc2bow
               (Gensim.new_Dictionary id [["b"; "a"; "b"]; ["c"; "a"]])
               doc false).1) <$> [["b"; "a"; "b"]; ["c"; "a"]]
    = [[(0, 1); (1, 2)]; [(0, 1); (2, 1)]]
  ∧ sum_list [(0, 1); (1, 2)].*2 = length ["b"; "a"; "b"].
Proof.
  assert (Hbound : (N.of_nat (size (vocabulary [["b"; "a"; "b"]; ["c"; "a"]]))
                    ≤ Gensim.prune_at)%N) by (by vm_compute).
  split; [exact Hbound|]. split; [reflexivity|].
  pose proof (corpus_well_formed id [["b"; "a"; "b"]; ["c"; "a"]] Hbound)
    as Hcorpus.
  apply Forall2_cons_1 in Hcorpus as [(_ & _ & _ & Hsum & _) _].
  exact Hsum.
Defined.

(** ** How a search action ends *)

Lemma new_Dictionary_len
    (filter_extremes : Gensim.Dictionary → Gensim.Dictionary)
    (docs : list (list string)) :
  (N.of_nat (size (vocabulary docs)) ≤ Gensim.prune_at)%N →
  (Gensim.len (Gensim.new_Dictionary filter_extremes docs) =? 0)%N
  = bool_decide (Forall (λ doc, doc = []) docs).
Proof.
  intros Hbound. case_bool_decide as Hdocs.
  - unfold Gensim.len, Gensim.new_Dictionary.
    by rewrite add_documents_no_tokens.
  - apply N.eqb_neq. intros Hlen. apply Hdocs, Forall_forall. intros doc Hdoc.
    destruct doc as [|w doc]; [done|]. exfalso.
    pose proof (new_Dictionary_numbered filter_extremes docs Hbound)
      as (Hsize & _ & _).
    unfold Gensim.len in Hlen. rewrite Hsize in Hlen.
    assert (Hw : w ∈ batch_order docs).
    { unfold batch_order.
      rewrite <- (elem_of_list_to_set (C:=gset string)), batch_order_from_tokens.
      apply elem_of_union_r, elem_of_list_to_set, list_elem_of_In, in_concat.
      exists (w :: doc). rewrite <- !list_elem_of_In. split; [done|by left]. }
    destruct (batch_order docs); [by apply elem_of_nil in Hw|]. cbn in Hlen. lia.
Qed.

Section MainMore.

Context (re_compile : Re.engine).
Context (word_tokenize : string → list string) (stop_words : list string).
Context (filter_extremes : Gensim.Dictionary → Gensim.Dictionary).
Context {random_state lda_model : Type}.
Context (lda_fit : random_state → list (list (nat * nat)) →
                   Gensim.Dictionary → nat → nat → lda_model).
Context (print_topics : lda_model → nat → list (nat * string)).

Local Abbreviation search :=
  (on_search re_compile word_tokenize stop_words filter_extremes
     lda_fit print_topics).
Local Abbreviation processed results :=
  ((λ a, preprocess_text word_tokenize stop_words (content a)) <$> results).

(** A search with results, as one run: the rows, the call of the
    builder, and then either the topics or the exception of [LdaModel]. *)
Lemma on_search_run rng query c df results :
  search_articles re_compile query c df = Returns results →
  results ≠ [] →
  let docs := processed results in
  let dictionary := Gensim.new_Dictionary filter_extremes docs in
  let corpus := (λ doc, (Gensim.doc2bow dictionary doc false).1) <$> docs in
  let shown := [results_header (length results)] ++ (result_item <$> results)
               ++ [topics_heading; call_build_lda_model docs 5] in
  search rng query c df
  = match LdaModel lda_fit rng corpus dictionary 5 10 with
    | Returns lda =>
        (shown ++ (uncurry (λ idx topic, topic_line (idx + 1) topic)
                     <$> print_topics lda 5), Returns tt)
    | Raises e => (shown, Raises e)
    end.
Proof.
  intros Hs Hne docs dictionary corpus shown. unfold on_search. rewrite Hs.
  assert (Hdocs : docs ≠ []).
  { intros Hnil. by apply fmap_nil_inv in Hnil. }
  unfold lift, mbind, run_bind at 1. cbn [emit].
  rewrite (bool_decide_eq_true_2 _ Hne), (bool_decide_eq_true_2 _ Hdocs).
  rewrite (for_each_log _ result_item) by done.
  unfold build_lda_model, lift, emit.
  assert (Hshow : ∀ lda, display_topics print_topics lda 5
            = (uncurry (λ idx topic, topic_line (idx + 1) topic)
                 <$> print_topics lda 5, Returns tt)).
  { intros lda. unfold display_topics. apply for_each_log. by intros [??]. }
  unfold mbind, run_bind, mret, run_ret. cbn.
  fold docs. fold dictionary. fold corpus.
  destruct (LdaModel _ _ _ _ _ _) as [lda|e]; cbn.
  - rewrite Hshow. cbn. unfold shown.
    by rewrite <- ?app_assoc, ?app_nil_r.
  - unfold shown. by rewrite <- ?app_assoc.
Qed.

(** When the matched contents hold at least one token (and stay within
    the pruning bound), the search action ends normally: it shows the
    number of results, every result once in table order, the call of the
    builder on the preprocessed contents, and one line per topic of the
    fitted model, numbered from the model's index plus one. *)
Theorem on_search_shows_topics rng query c df results :
  search_articles re_compile query c df = Returns results →
  Exists (λ a, preprocess_text word_tokenize stop_words (content a) ≠ [])
    results →
  (N.of_nat (size (vocabulary (processed results))) ≤ Gensim.prune_at)%N →
  let docs := processed results in
  let dictionary := Gensim.new_Dictionary filter_extremes docs in
  let corpus := (λ doc, (Gensim.doc2bow dictionary doc false).1) <$> docs in
  search rng query c df
  = ([results_header (length results)] ++ (result_item <$> results)
     ++ [topics_heading; call_build_lda_model docs 5]
     ++ (uncurry (λ idx topic, topic_line (idx + 1) topic)
           <$> print_topics (lda_fit rng corpus dictionary 5 10) 5),
     Returns tt).
Proof.
  intros Hs Htok Hbound docs dictionary corpus.
  assert (Hne : results ≠ []).
  { intros ->. by apply Exists_nil in Htok. }
  rewrite (on_search_run rng query c df results Hs Hne). cbn zeta.
  fold docs. fold dictionary. fold corpus. unfold LdaModel.
  unfold dictionary at 1. rewrite new_Dictionary_len by done.
  rewrite bool_decide_eq_false_2.
  - by rewrite <- ?app_assoc.
  - intros Hall. apply Exists_exists in Htok as (a & Ha & Htok).
    apply Htok. unfold docs in Hall.
    rewrite Forall_fmap, Forall_forall in Hall. by apply Hall.
Qed.


End MainMore.

(** The search for "budget" on [example_table], with a model of two
    topics. *)
Lemma on_search_shows_topics_witness :
  search_articles (Re.compile Re.no_rest) "budget" "All" example_table
  = Returns [all_row]
  ∧ on_search (Re.compile Re.no_rest) String.words ["the"] id
      (λ _ _ _ _ _, tt) (λ _ _, [(0, "budget"); (1, "eyes")]) tt
      "budget" "All" example_table
    = ([results_header 1; result_item all_row; topics_heading;
        call_build_lda_model [["all"; "eyes"; "on"; "budget"]] 5;
        topic_line 1 "budget"; topic_line 2 "eyes"],
       Returns tt).
Proof.
  split; [reflexivity|].
  apply (on_search_shows_topics (Re.compile Re.no_rest) String.words ["the"]
           id (λ _ _ _ _ _, tt) (λ _ _, [(0, "budget"); (1, "eyes")]) tt
           "budget" "All" example_table [all_row] eq_refl).
  - apply Exists_cons_hd. discriminate.
  - by vm_compute.
Defined.

(** ** More on [preprocess_text] *)

Section PreprocessMore.

Context (word_tokenize : string → list string) (stop_words : list string).

(** Preprocessing does not see the letter case of the text; it keeps the
    tokens of the tokenizer in their order, and drops exactly those that
    are not alphabetic or are stopwords. *)
Theorem preprocess_text_keeps (text : string) :
  preprocess_text word_tokenize stop_words (Str.lower text)
  = preprocess_text word_tokenize stop_words text
  ∧ preprocess_text word_tokenize stop_words text
    `sublist_of` word_tokenize (Str.lower text)
  ∧ ∀ w, w ∈ preprocess_text word_tokenize stop_words text
         ↔ w ∈ word_tokenize (Str.lower text)
           ∧ Str.isalpha w = true ∧ w ∉ stop_words.
Proof.
  unfold preprocess_text. cbn zeta. split; [by rewrite lower_idemp|].
  rewrite <- filter_bool. split; [apply sublist_filter|].
  intros w. rewrite list_elem_of_filter, andb_true_iff, bool_decide_eq_true.
  tauto.
Qed.

End PreprocessMore.

(** ** The order of the ids *)

Lemma batch_order_from_app (docs more : list (list string)) (l : list string) :
  batch_order_from l (docs ++ more)
  = batch_order_from (batch_order_from l docs) more.
Proof. revert l. induction docs as [|doc docs IH]; intros l; cbn; auto. Qed.

Lemma batch_order_from_prefix (docs : list (list string)) (l : list string) :
  l `prefix_of` batch_order_from l docs.
Proof.
  revert l. induction docs as [|doc docs IH]; intros l; cbn; [done|].
  etrans; [|apply IH]. by apply prefix_app_r.
Qed.

Lemma sorted_positions (l : list string) (i j : nat) (v w : string) :
  Sorted String.le l → NoDup l →
  l !! i = Some v → l !! j = Some w →
  i < j ↔ String.le v w ∧ v ≠ w.
Proof.
  intros Hsorted%Sorted_StronglySorted Hnd Hi Hj; [|apply _].
  assert (Hlt : ∀ i j v w, l !! i = Some v → l !! j = Some w → i < j →
                           String.le v w).
  { clear i j v w Hi Hj. intros i j v w Hi Hj Hij.
    rewrite <- (take_drop j l) in Hsorted.
    eapply (StronglySorted_app_1_elem_of String.le); [exact Hsorted| |].
    - eapply list_elem_of_lookup_2. by rewrite lookup_take_lt.
    - eapply (list_elem_of_lookup_2 _ 0). by rewrite lookup_drop, Nat.add_0_r. }
  split.
  - intros Hij. split; [by eapply Hlt|].
    intros ->. pose proof (NoDup_lookup l i j w Hnd Hi Hj). lia.
  - intros [Hle Hne]. destruct (decide (i < j)) as [|Hge]; [done|].
    destruct (decide (i = j)) as [->|Hij]; [congruence|].
    assert (String.le w v) by (eapply (Hlt j i); [done..|lia]).
    destruct Hne. by apply (anti_symm String.le).
Qed.

Section IdOrder.

Context (filter_extremes : Gensim.Dictionary → Gensim.Dictionary).

(** For a batch within the pruning bound: a token that occurs in an
    earlier document has a smaller id than a token first occurring in a
    later one, and two tokens that first occur in the same document are
    numbered in the ascending order of their text. *)
Theorem dictionary_id_order (before after : list (list string))
    (doc : list string) (v w : string) (i j : nat) :
  let docs := before ++ doc :: after in
  let m := Gensim.token2id (Gensim.new_Dictionary filter_extremes docs) in
  (N.of_nat (size (vocabulary docs)) ≤ Gensim.prune_at)%N →
  m !! v = Some i → m !! w = Some j →
  w ∈ doc → w ∉ concat before →
  (v ∈ concat before → i < j)
  ∧ (v ∈ doc → v ∉ concat before → i < j ↔ String.le v w ∧ v ≠ w).
Proof.
  intros docs m Hbound Hv Hw Hwdoc Hwnew.
  pose proof (new_Dictionary_numbered filter_extremes docs Hbound)
    as (_ & Hnd & Hm).
  fold m in Hm. apply Hm in Hv, Hw.
  set (seen := batch_order before).
  assert (Hseen : ∀ x, x ∈ seen ↔ x ∈ concat before).
  { intros x. unfold seen, batch_order.
    rewrite <- (elem_of_list_to_set (C:=gset string)), batch_order_from_tokens.
    unfold vocabulary. cbn. rewrite (left_id_L ∅ (∪)).
    apply elem_of_list_to_set. }
  destruct (batch_order_from_prefix after (seen ++ new_tokens seen doc))
    as [rest Hrest].
  assert (Horder : batch_order docs = seen ++ new_tokens seen doc ++ rest).
  { unfold batch_order, docs. rewrite batch_order_from_app. cbn.
    fold (batch_order before). fold seen. by rewrite Hrest, <- (assoc_L (++)). }
  rewrite Horder in Hv, Hw, Hnd.
  apply NoDup_app in Hnd as (Hnd1 & Hdisj & Hnd2).
  apply NoDup_app in Hnd2 as (Hnd2 & Hdisj2 & _).
  assert (Hwin : w ∈ new_tokens seen doc).
  { apply new_tokens_elem_of. by rewrite Hseen. }
  (* the position of [w] lies in the block of the new tokens of [doc] *)
  apply lookup_app_Some in Hw as [Hw|[Hj Hw]].
  { destruct (Hdisj w); [by eapply list_elem_of_lookup_2|].
    apply elem_of_app. by left. }
  apply lookup_app_Some in Hw as [Hw|[_ Hw]]; last first.
  { destruct (Hdisj2 w Hwin). by eapply list_elem_of_lookup_2. }
  split.
  - intros Hvin. apply Hseen in Hvin.
    apply lookup_app_Some in Hv as [Hv|[_ Hv]].
    + apply lookup_lt_Some in Hv. lia.
    + destruct (Hdisj v Hvin). by eapply list_elem_of_lookup_2.
  - intros Hvdoc Hvnew.
    assert (Hvin : v ∈ new_tokens seen doc).
    { apply new_tokens_elem_of. by rewrite Hseen. }
    apply lookup_app_Some in Hv as [Hv|[Hi Hv]].
    { destruct (Hdisj v); [by eapply list_elem_of_lookup_2|].
      apply elem_of_app. by left. }
    apply lookup_app_Some in Hv as [Hv|[_ Hv]]; last first.
    { destruct (Hdisj2 v Hvin). by eapply list_elem_of_lookup_2. }
    rewrite <- (sorted_positions (new_tokens seen doc)
                  (i - length seen) (j - length seen) v w);
      [lia| |apply new_tokens_NoDup|done|done].
    apply (Sorted_merge_sort String.le).
Qed.

(** Documents added after others never renumber: the ids given to the
    tokens of the first documents are the ids they would have if the
    batch ended there. *)
Theorem dictionary_ids_stable (docs more : list (list string))
    (w : string) (i : nat) :
  (N.of_nat (size (vocabulary (docs ++ more))) ≤ Gensim.prune_at)%N →
  Gensim.token2id (Gensim.new_Dictionary filter_extremes docs) !! w = Some i →
  Gensim.token2id (Gensim.new_Dictionary filter_extremes (docs ++ more)) !! w
  = Some i.
Proof.
  intros Hbound Hw.
  assert (Hbound' : (N.of_nat (size (vocabulary docs)) ≤ Gensim.prune_at)%N).
  { etrans; [|exact Hbound].
    assert (size (vocabulary docs) ≤ size (vocabulary (docs ++ more))).
    { apply subseteq_size. unfold vocabulary. rewrite concat_app.
      rewrite list_to_set_app_L. apply union_subseteq_l. }
    lia. }
  pose proof (new_Dictionary_numbered filter_extremes docs Hbound')
    as (_ & _ & Hm).
  pose proof (new_Dictionary_numbered filter_extremes _ Hbound)
    as (_ & _ & Hm').
  apply Hm in Hw. apply Hm'. unfold batch_order in *.
  rewrite batch_order_from_app.
  eapply prefix_lookup_Some; [exact Hw|apply batch_order_from_prefix].
Qed.

End IdOrder.


(** The ids of the tutorial's batch: "meow" and "say" first occur in the
    second document and are numbered in ascending order. *)
Lemma dictionary_id_order_witness :
  (N.of_nat (size (vocabulary (tutorial_docs
                                 ++ ["cat"; "say"; "meow"; "human"]
                                 :: [["dog"]])))
   ≤ Gensim.prune_at)%N
  ∧ Gensim.token2id
      (Gensim.new_Dictionary id
         (tutorial_docs ++ ["cat"; "say"; "meow"; "human"] :: [["dog"]]))
    !! "say" = Some 5
  ∧ (4 < 5 ↔ String.le "meow" "say" ∧ "meow" ≠ "say").
Proof.
  assert (Hbound : (N.of_nat (size (vocabulary
                      (tutorial_docs ++ ["cat"; "say"; "meow"; "human"]
                                        :: [["dog"]])))
                    ≤ Gensim.prune_at)%N) by (by vm_compute).
  assert (Hsay : Gensim.token2id
      (Gensim.new_Dictionary id
         (tutorial_docs ++ ["cat"; "say"; "meow"; "human"] :: [["dog"]]))
    !! "say" = Some 5) by (vm_compute; reflexivity).
  assert (Hmeow : Gensim.token2id
      (Gensim.new_Dictionary id
         (tutorial_docs ++ ["cat"; "say"; "meow"; "human"] :: [["dog"]]))
    !! "meow" = Some 4) by (vm_compute; reflexivity).
  split; [exact Hbound|]. split; [exact Hsay|].
  apply (dictionary_id_order id tutorial_docs [["dog"]]
           ["cat"; "say"; "meow"; "human"] "meow" "say" 4 5 Hbound
           Hmeow Hsay).
  - apply (bool_decide_unpack _). by vm_compute.
  - apply (bool_decide_unpack _). by vm_compute.
  - apply (bool_decide_unpack _). by vm_compute.
  - apply (bool_decide_unpack _). by vm_compute.
Defined.

(** Adding a second document to the tutorial's first leaves the id of
    "interface" at 2. *)
Lemma dictionary_ids_stable_witness :
  (N.of_nat (size (vocabulary (tutorial_docs ++ [["cat"; "say"; "meow"]])))
   ≤ Gensim.prune_at)%N
  ∧ Gensim.token2id (Gensim.new_Dictionary id tutorial_docs) !! "interface"
    = Some 2
  ∧ Gensim.token2id
      (Gensim.new_Dictionary id (tutorial_docs ++ [["cat"; "say"; "meow"]]))
    !! "interface" = Some 2.
Proof.
  assert (Hbound : (N.of_nat (size (vocabulary
                      (tutorial_docs ++ [["cat"; "say"; "meow"]])))
                    ≤ Gensim.prune_at)%N) by (by vm_compute).
  assert (Hid : Gensim.token2id (Gensim.new_Dictionary id tutorial_docs)
                  !! "interface" = Some 2) by (vm_compute; reflexivity).
  split; [exact Hbound|]. split; [exact Hid|].
  exact (dictionary_ids_stable id tutorial_docs [["cat"; "say"; "meow"]]
           "interface" 2 Hbound Hid).
Defined.


(** ** The letter case of the articles *)

Lemma filter_fmap_agree {A} (f : A → A) (P : A → Prop)
    `{!∀ x, Decision (P x)} (l : list A) :
  (∀ x, P (f x) ↔ P x) → filter P (f <$> l) = f <$> filter P l.
Proof.
  intros Hf. induction l as [|x l IH]; [done|]. cbn [fmap list_fmap].
  rewrite !filter_cons, IH.
  destruct (decide (P x)) as [HP|HP].
  - by rewrite decide_True by (by apply Hf).
  - by rewrite decide_False by (by rewrite Hf).
Qed.

(** The search does not see the letter case of headlines and contents:
    on the table with every headline and content lowercased it selects
    the same rows, whatever the engine. *)
Theorem search_articles_case_of_rows (re_compile : Re.engine)
    (query c : string) (df : DataFrame) :
  search_articles re_compile query c (lower_row <$> df)
  = (search_articles re_compile query c df
       ≫= λ rows : DataFrame, Returns (lower_row <$> rows)).
Proof.
  rewrite !search_articles_filter. cbn zeta.
  destruct (Str.truthy _); [destruct (re_compile _) as [found|]|]; cbn;
    try done; f_equal; apply filter_fmap_agree; intros a;
    unfold category_keeps, text_keeps; cbn; by rewrite ?lower_idemp.
Qed.
